(** * unpack_vendor_boot: the vendor boot image extractor of [main.c]

    A shallow embedding of [main.c] and the properties of its header
    layout, its page alignment arithmetic and its extraction pipeline.

    Conventions of the embedding (LP64, little-endian host, as on x86-64 and
    AArch64 Linux):
    - [uint32_t] values are [Z] in [0, 2^32) and every operation on them wraps
      modulo 2^32; [long] is a 64-bit two's complement [Z];
    - memory and file contents are [list byte];
    - the file system is a finite map from path names to contents; a stream
      opened for reading is a path and a position, and reads what the map
      holds at that path when the read happens;
    - [malloc] is taken to succeed, and storage not to run out. *)

From Stdlib Require Import ZArith List Lia Bool.
From Stdlib Require Import Strings.String Strings.Byte.
From stdpp Require Import gmap strings list fin_maps.

Local Open Scope Z_scope.

(** ** Constants of [main.c] *)

Definition VENDOR_BOOT_MAGIC : string := "VNDRBOOT".
Definition VENDOR_BOOT_MAGIC_SIZE : Z := 8.
Definition VENDOR_BOOT_ARGS_SIZE : Z := 2048.
Definition VENDOR_BOOT_NAME_SIZE : Z := 16.
Definition VENDOR_HEADER_SIZE : Z := 2112.

Definition VENDOR_RAMDISK : string := "vendor_ramdisk.img".
Definition VENDOR_DTB : string := "vendor_dtb.img".

Definition EXIT_SUCCESS : Z := 0.
Definition EXIT_FAILURE : Z := 1.

(** ** Machine integers *)

Module Int.

Definition UINT32_MOD : Z := 4294967296.
Definition LONG_MOD : Z := 18446744073709551616.
Definition LONG_MAX : Z := 9223372036854775807.

(** Reduction of a mathematical result to [unsigned int]. *)
Definition u32 (z : Z) : Z := z mod UINT32_MOD.

Definition u32_add (a b : Z) : Z := u32 (a + b).
Definition u32_sub (a b : Z) : Z := u32 (a - b).
Definition u32_mul (a b : Z) : Z := u32 (a * b).

(** Unsigned division; [None] is the division by zero, which C leaves
    undefined (a SIGFPE on x86). *)
Definition u32_div (a b : Z) : option Z :=
  if b =? 0 then None else Some (a / b).

(** Reduction of a mathematical result to [long] (two's complement). *)
Definition long (z : Z) : Z :=
  let r := z mod LONG_MOD in
  if r <=? LONG_MAX then r else r - LONG_MOD.

Definition long_add (a b : Z) : Z := long (a + b).

Definition is_u32 (z : Z) : Prop := 0 <= z < UINT32_MOD.

End Int.

Import Int.

(** ** The alignment macros

    [PAGES(size, page_size) = ((size) + (page_size) - 1) / (page_size)] and
    [ALIGN(size, page_size) = PAGES(size, page_size) * (page_size)].  Both
    uses in [main] have a [uint32_t] page size, so the usual arithmetic
    conversions make every operation an [unsigned int] one. *)

Definition PAGES (size page_size : Z) : option Z :=
  u32_div (u32_sub (u32_add size page_size) 1) page_size.

Definition ALIGN (size page_size : Z) : option Z :=
  match PAGES size page_size with
  | Some pages => Some (u32_mul pages page_size)
  | None => None
  end.

(** The quotient rounded up, as the specification words it. *)
Definition ceil_div (s p : Z) : Z :=
  s / p + (if s mod p =? 0 then 0 else 1).

(** ** Layout of [struct vendor_boot_img_hdr] *)

Module Layout.

Inductive ctype :=
| Uint8Array (n : Z)
| Uint32
| Uint64.

(** An ABI fixes the alignment of the scalar types. *)
Record abi := Abi { align_u32 : Z; align_u64 : Z }.

Definition lp64 : abi := Abi 4 8.
Definition ilp32_sysv : abi := Abi 4 4.

Definition sizeof (t : ctype) : Z :=
  match t with
  | Uint8Array n => n
  | Uint32 => 4
  | Uint64 => 8
  end.

Definition alignof (a : abi) (t : ctype) : Z :=
  match t with
  | Uint8Array _ => 1
  | Uint32 => align_u32 a
  | Uint64 => align_u64 a
  end.

(** Next multiple of [al] at or after [off]. *)
Definition round_up (off al : Z) : Z := ((off + al - 1) / al) * al.

(** Members are laid out in declaration order, each at the next offset
    that suits its alignment. Returns the member offsets and the offset
    after the last member. *)
Fixpoint place (a : abi) (off : Z) (fields : list (string * ctype))
  : list (string * Z) * Z :=
  match fields with
  | [] => ([], off)
  | (name, t) :: rest =>
      let o := round_up off (alignof a t) in
      let '(offs, fin) := place a (o + sizeof t) rest in
      ((name, o) :: offs, fin)
  end.

Definition struct_align (a : abi) (fields : list (string * ctype)) : Z :=
  fold_right (fun f acc => Z.max (alignof a (snd f)) acc) 1 fields.

Definition struct_size (a : abi) (fields : list (string * ctype)) : Z :=
  round_up (snd (place a 0 fields)) (struct_align a fields).

Definition offsets (a : abi) (fields : list (string * ctype)) : list (string * Z) :=
  fst (place a 0 fields).

(** Sum of the member sizes: what the struct takes with no padding. *)
Definition packed_size (fields : list (string * ctype)) : Z :=
  fold_right (fun f acc => sizeof (snd f) + acc) 0 fields.

(** The members of [struct vendor_boot_img_hdr], in declaration order. *)
Definition vendor_boot_img_hdr : list (string * ctype) :=
  [ ("magic"%string, Uint8Array VENDOR_BOOT_MAGIC_SIZE);
    ("header_version"%string, Uint32);
    ("page_size"%string, Uint32);
    ("kernel_addr"%string, Uint32);
    ("ramdisk_addr"%string, Uint32);
    ("vendor_ramdisk_size"%string, Uint32);
    ("cmdline"%string, Uint8Array VENDOR_BOOT_ARGS_SIZE);
    ("tags_addr"%string, Uint32);
    ("name"%string, Uint8Array VENDOR_BOOT_NAME_SIZE);
    ("header_size"%string, Uint32);
    ("dtb_size"%string, Uint32);
    ("dtb_addr"%string, Uint64) ].

(** Padding-free placement: every member starts where the previous one
    ends, and the struct ends where the last member does. *)
Fixpoint contiguous (off : Z) (fields : list (string * ctype))
         (offs : list (string * Z)) : bool :=
  match fields, offs with
  | [], [] => true
  | (_, t) :: fs, (_, o) :: os => (o =? off) && contiguous (off + sizeof t) fs os
  | _, _ => false
  end.

Definition no_padding (a : abi) (fields : list (string * ctype)) : bool :=
  contiguous 0 fields (offsets a fields)
  && (struct_size a fields =? packed_size fields).

(** The alignments C ABIs give the two scalar types. *)
Definition natural (a : abi) : Prop :=
  In (align_u32 a) [1; 2; 4] /\ In (align_u64 a) [1; 2; 4; 8].

End Layout.

(** [sizeof(hdr)] on the modelled host. *)
Definition sizeof_hdr : Z := Layout.struct_size Layout.lp64 Layout.vendor_boot_img_hdr.


(** ** Bytes and C strings *)

Definition byte_val (b : byte) : Z := Z.of_N (Byte.to_N b).

#[global] Instance byte_eq_dec : EqDecision byte := Byte.byte_eq_dec.

(** Little-endian value of a run of bytes. *)
Fixpoint le_combine (bs : list byte) : Z :=
  match bs with
  | [] => 0
  | b :: rest => byte_val b + 256 * le_combine rest
  end.

(** A [uint32_t] load from the object [mem] at byte offset [off]. *)
Definition load_u32 (mem : list byte) (off : Z) : Z :=
  le_combine (take 4 (drop (Z.to_nat off) mem)).

(** [strncmp(s1, s2, n)]: at most [n] characters are compared, as
    [unsigned char], and the comparison stops after a NUL. The lists are the
    memory from each pointer onwards. *)
Fixpoint strncmp (s1 s2 : list byte) (n : nat) {struct n} : Z :=
  match n with
  | O => 0
  | S n' =>
      match s1, s2 with
      | c1 :: t1, c2 :: t2 =>
          if negb (Byte.eqb c1 c2) then byte_val c1 - byte_val c2
          else if Byte.eqb c1 x00 then 0
          else strncmp t1 t2 n'
      | _, _ => 0
      end
  end.

(** What a [%s] conversion reads: the bytes from the pointer up to the
    first NUL. The conversion has no bound of its own; [Overrun] records
    that the object ended before a NUL was met, so that the read went on
    into whatever memory follows the object. *)
Inductive cscan :=
| Terminated (s : list byte)
| Overrun (s : list byte).

Definition cscan_cons (c : byte) (r : cscan) : cscan :=
  match r with
  | Terminated s => Terminated (c :: s)
  | Overrun s => Overrun (c :: s)
  end.

Fixpoint scan_cstr (mem : list byte) : cscan :=
  match mem with
  | [] => Overrun []
  | c :: rest =>
      if Byte.eqb c x00 then Terminated [] else cscan_cons c (scan_cstr rest)
  end.

(** Number of bytes of the object a scan has examined, the NUL included. *)
Definition cscan_examined (r : cscan) : Z :=
  match r with
  | Terminated s => Z.of_nat (length s) + 1
  | Overrun s => Z.of_nat (length s)
  end.

(** The string of a fixed buffer as the specification words it: the scan
    for a terminator stays within the first [bound] bytes. *)
Definition bounded_cstr (buf : list byte) (bound : nat) : list byte :=
  match scan_cstr (take bound buf) with
  | Terminated s => s
  | Overrun s => s
  end.

(** ** The header object

    [hdr] is the memory of a [struct vendor_boot_img_hdr], filled byte for
    byte by [fread]; members are read at their offsets in the layout. *)

Module Hdr.

Definition offset_of (name : string) : Z :=
  match List.find (fun f => String.eqb (fst f) name)
          (Layout.offsets Layout.lp64 Layout.vendor_boot_img_hdr) with
  | Some (_, o) => o
  | None => 0
  end.

Definition OFF_MAGIC : Z := Eval cbv in offset_of "magic".
Definition OFF_PAGE_SIZE : Z := Eval cbv in offset_of "page_size".
Definition OFF_VENDOR_RAMDISK_SIZE : Z := Eval cbv in offset_of "vendor_ramdisk_size".
Definition OFF_CMDLINE : Z := Eval cbv in offset_of "cmdline".
Definition OFF_NAME : Z := Eval cbv in offset_of "name".
Definition OFF_HEADER_SIZE : Z := Eval cbv in offset_of "header_size".
Definition OFF_DTB_SIZE : Z := Eval cbv in offset_of "dtb_size".

(** [hdr.magic], [hdr.cmdline], [hdr.name] decay to pointers into the
    object: the memory from the member onwards. *)
Definition magic (hdr : list byte) : list byte := drop (Z.to_nat OFF_MAGIC) hdr.
Definition cmdline (hdr : list byte) : list byte := drop (Z.to_nat OFF_CMDLINE) hdr.
Definition name (hdr : list byte) : list byte := drop (Z.to_nat OFF_NAME) hdr.

Definition page_size (hdr : list byte) : Z := load_u32 hdr OFF_PAGE_SIZE.
Definition vendor_ramdisk_size (hdr : list byte) : Z :=
  load_u32 hdr OFF_VENDOR_RAMDISK_SIZE.
Definition header_size (hdr : list byte) : Z := load_u32 hdr OFF_HEADER_SIZE.
Definition dtb_size (hdr : list byte) : Z := load_u32 hdr OFF_DTB_SIZE.

End Hdr.

(** The string literal [VENDOR_BOOT_MAGIC] in memory, with its NUL. *)
Definition magic_literal : list byte :=
  list_byte_of_string VENDOR_BOOT_MAGIC ++ [x00].

(** ** The world the program runs in *)

(** The file system: contents by path name, and the paths that cannot be
    opened for writing. *)
Record world := World {
  files : gmap string (list byte);
  unwritable : gset string
}.

(** A [FILE] object: the path it was opened on, the position of the next
    transfer and the end-of-file indicator. *)
Record FILE := File {
  f_path : string;
  f_pos : Z;
  f_eof : bool
}.

(** What is printed on the error stream. *)
Inductive diag :=
| ErrArgCount                  (* Error: Invalid argument count *)
| ErrOpen (path : string)      (* Error: Can't open %s file; reason: %s *)
| ErrRead (eof : bool)         (* Error: Can't read file [End of file reached] *)
| ErrWrite (eof : bool)        (* Error: Can't write file *)
| ErrMagic (shown : cscan)     (* Error: Magic doesn't match! Magic = '%s' *)
| ErrSeek (path : string).     (* Error: Can't seek %s file; reason: %s *)

(** What a run does, in order. *)
Inductive event :=
| Progress (line : string)
| Usage (app : option string)
| Diag (d : diag)
| Report (label : string) (shown : cscan)
| Fopen (path : string) (mode : string)
| Fseek (path : string) (offset : Z)
| Fread (path : string) (offset size : Z)
| Fwrite (path : string) (size : Z)
| Fclose (path : string).

(** Ways a run ends that are not a return from [main]. *)
Inductive fault :=
| DivByZero.

Inductive outcome :=
| Exit (status : Z)
| Fault (f : fault).

Record state := State {
  st_world : world;
  st_log : list event
}.

(** Computations over the world and the log, which either yield a value or
    end the run. *)
Definition M (A : Type) : Type := state -> (A + outcome) * state.

Definition ret {A} (x : A) : M A := fun s => (inl x, s).

Definition bind {A B} (m : M A) (k : A -> M B) : M B :=
  fun s =>
    match m s with
    | (inl x, s') => k x s'
    | (inr o, s') => (inr o, s')
    end.

Definition halt {A} (o : outcome) : M A := fun s => (inr o, s).

Definition emit (e : event) : M unit :=
  fun s => (inl tt, State (st_world s) (st_log s ++ [e])).

Definition get_world : M world := fun s => (inl (st_world s), s).

Definition put_files (fs : gmap string (list byte)) : M unit :=
  fun s => (inl tt, State (World fs (unwritable (st_world s))) (st_log s)).

Declare Scope io_scope.
Delimit Scope io_scope with io.
Notation "x <- m ;; k" := (bind m (fun x => k))
  (at level 20, m at level 99, k at level 200, only parsing) : io_scope.
Notation "' p <- m ;; k" := (bind m (fun x => let 'p := x in k))
  (at level 20, p pattern, m at level 99, k at level 200, only parsing) : io_scope.
Notation "m ;; k" := (bind m (fun _ => k))
  (at level 100, k at level 200, only parsing, right associativity) : io_scope.
Local Open Scope io_scope.

(** C truth of an [int]. *)
Definition truthy (z : Z) : bool := negb (z =? 0).

(** ** The C library, as far as [main.c] uses it *)

(** [fopen(path, "r")]: a null pointer when there is no such file. *)
Definition fopen_r (path : string) : M (option FILE) :=
  emit (Fopen path "r") ;;
  w <- get_world ;;
  match files w !! path with
  | Some _ => ret (Some (File path 0 false))
  | None => ret None
  end.

(** [fopen(path, "w")]: creates the file or truncates it to length zero. *)
Definition fopen_w (path : string) : M (option FILE) :=
  emit (Fopen path "w") ;;
  w <- get_world ;;
  if decide (path ∈ unwritable w) then ret None
  else put_files (<[path := []]> (files w)) ;; ret (Some (File path 0 false)).

(** [fseek(stream, offset, SEEK_SET)]: a negative offset is refused; any
    other is accepted, also past the end of the file. *)
Definition fseek (stream : FILE) (offset : Z) : M (Z * FILE) :=
  emit (Fseek (f_path stream) offset) ;;
  if offset <? 0 then ret (-1, stream)
  else ret (0, File (f_path stream) offset false).

(** [fread(ptr, size, 1, stream)]: the number of whole items read (0 or 1),
    the bytes stored through [ptr], and the stream afterwards. With [size]
    zero it returns zero and leaves the stream as it is (C11 7.21.8.1).
    The stream has no buffer of its own here: a read sees the file as it
    is when the read happens. That is what the C library does as long as
    the file is not rewritten while the stream is open; [main] rewrites
    its input only when the operand is [VENDOR_RAMDISK] itself, and what a
    buffered stream then returns for the dtb is not modelled. *)
Definition fread (size : Z) (stream : FILE) : M (Z * list byte * FILE) :=
  emit (Fread (f_path stream) (f_pos stream) size) ;;
  w <- get_world ;;
  if size =? 0 then ret (0, [], stream)
  else
    let content := default [] (files w !! f_path stream) in
    let data := take (Z.to_nat size) (drop (Z.to_nat (f_pos stream)) content) in
    let got := Z.of_nat (length data) in
    if got <? size
    then ret (0, data, File (f_path stream) (f_pos stream + got) true)
    else ret (1, data, File (f_path stream) (f_pos stream + size) (f_eof stream)).

(** A file after [data] is stored at position [pos]: the bytes are
    overwritten in place, what lies after them stays, and a position past
    the end leaves a gap that reads as zeros. *)
Definition overwrite (old : list byte) (pos : nat) (data : list byte) : list byte :=
  take pos (old ++ repeat x00 (pos - length old))
  ++ data
  ++ drop (pos + length data) old.

(** [fwrite(ptr, size, 1, stream)] followed, when the stream is closed, by
    the bytes reaching the file. With [size] zero it returns zero and writes
    nothing (C11 7.21.8.2). *)
Definition fwrite (buf : list byte) (size : Z) (stream : FILE) : M (Z * FILE) :=
  emit (Fwrite (f_path stream) size) ;;
  w <- get_world ;;
  if size =? 0 then ret (0, stream)
  else
    let content := default [] (files w !! f_path stream) in
    let data := take (Z.to_nat size) buf in
    put_files (<[f_path stream := overwrite content (Z.to_nat (f_pos stream)) data]>
                 (files w)) ;;
    ret (1, File (f_path stream) (f_pos stream + size) (f_eof stream)).

Definition fclose (stream : FILE) : M unit := emit (Fclose (f_path stream)).

(** ** The functions of [main.c] *)

Definition print_usage (app : option string) : M unit := emit (Usage app).

(** [parse_args]: the result and the value left in [*path]. [argc] is the
    length of [argv]; [*path] is not assigned on the error path. *)
Definition parse_args (argv : list string) : M (Z * string) :=
  if negb (Z.of_nat (length argv) =? 2) then
    emit (Diag ErrArgCount) ;;
    print_usage (argv !! 0%nat) ;;
    ret (-1, ""%string)
  else ret (0, default ""%string (argv !! 1%nat)).

Definition file_read (size : Z) (stream : FILE) : M (Z * list byte * FILE) :=
  '(num, data, stream') <- fread size stream ;;
  if negb (num =? 1) then
    emit (Diag (ErrRead (f_eof stream'))) ;;
    ret (-1, data, stream')
  else ret (0, data, stream').

Definition file_write (buf : list byte) (size : Z) (stream : FILE) : M (Z * FILE) :=
  '(num, stream') <- fwrite buf size stream ;;
  if negb (num =? 1) then
    emit (Diag (ErrWrite (f_eof stream'))) ;;
    ret (-1, stream')
  else ret (0, stream').

(** The value of an [unsigned int] expression, or the fault it raises. *)
Definition eval_u32 (v : option Z) : M Z :=
  match v with
  | Some z => ret z
  | None => halt (Fault DivByZero)
  end.

(** The exit labels of [main]; [free] has no effect on the world. *)
Definition err1 (f_vbi : FILE) (code : Z) : M Z :=
  fclose f_vbi ;; ret code.
Definition err2 (f_vbi : FILE) (code : Z) : M Z :=
  err1 f_vbi code.
Definition err3 (f_wr f_vbi : FILE) (code : Z) : M Z :=
  fclose f_wr ;; err2 f_vbi code.

Definition main (argv : list string) : M Z :=
  '(err, img_path) <- parse_args argv ;;
  if truthy err then ret EXIT_SUCCESS else
  f_vbi <- fopen_r img_path ;;
  match f_vbi with
  | None => emit (Diag (ErrOpen img_path)) ;; ret EXIT_FAILURE
  | Some f_vbi =>
  emit (Progress "--> Reading header...") ;;
  '(err, hdr, f_vbi) <- file_read sizeof_hdr f_vbi ;;
  if truthy err then err1 f_vbi EXIT_FAILURE else
  if truthy (strncmp (Hdr.magic hdr) magic_literal (Z.to_nat VENDOR_BOOT_MAGIC_SIZE)) then
    emit (Diag (ErrMagic (scan_cstr (Hdr.magic hdr)))) ;;
    err1 f_vbi EXIT_FAILURE
  else
  (* Skip header trailing bytes due to page alignment *)
  v <- eval_u32 (ALIGN VENDOR_HEADER_SIZE (Hdr.page_size hdr)) ;;
  let size_hdr := long v in
  '(err, f_vbi) <- fseek f_vbi size_hdr ;;
  if truthy err then
    emit (Diag (ErrSeek img_path)) ;; err1 f_vbi EXIT_FAILURE
  else
  (* Read ramdisk *)
  emit (Progress "--> Reading ramdisk...") ;;
  '(err, buf, f_vbi) <- file_read (Hdr.vendor_ramdisk_size hdr) f_vbi ;;
  if truthy err then err2 f_vbi EXIT_FAILURE else
  f_wr <- fopen_w VENDOR_RAMDISK ;;
  match f_wr with
  | None => emit (Diag (ErrOpen VENDOR_RAMDISK)) ;; err2 f_vbi EXIT_FAILURE
  | Some f_wr =>
  '(err, f_wr) <- file_write buf (Hdr.vendor_ramdisk_size hdr) f_wr ;;
  if truthy err then err3 f_wr f_vbi EXIT_FAILURE else
  fclose f_wr ;;
  (* Skip ramdisk *)
  v <- eval_u32 (ALIGN (Hdr.vendor_ramdisk_size hdr) (Hdr.page_size hdr)) ;;
  let size_rd := long v in
  '(err, f_vbi) <- fseek f_vbi (long_add size_hdr size_rd) ;;
  if truthy err then
    emit (Diag (ErrSeek img_path)) ;; err1 f_vbi EXIT_FAILURE
  else
  (* Read dtb *)
  emit (Progress "--> Reading dtb...") ;;
  '(err, buf, f_vbi) <- file_read (Hdr.dtb_size hdr) f_vbi ;;
  if truthy err then err2 f_vbi EXIT_FAILURE else
  f_wr <- fopen_w VENDOR_DTB ;;
  match f_wr with
  | None => emit (Diag (ErrOpen VENDOR_DTB)) ;; err2 f_vbi EXIT_FAILURE
  | Some f_wr =>
  '(err, f_wr) <- file_write buf (Hdr.dtb_size hdr) f_wr ;;
  if truthy err then err3 f_wr f_vbi EXIT_FAILURE else
  emit (Report "cmdline" (scan_cstr (Hdr.cmdline hdr))) ;;
  emit (Report "product name" (scan_cstr (Hdr.name hdr))) ;;
  err3 f_wr f_vbi EXIT_SUCCESS
  end end end.

(** A whole run: how it ends, the world it leaves and what it did. *)
Record result := Result {
  r_outcome : outcome;
  r_world : world;
  r_log : list event
}.

Definition run (argv : list string) (w : world) : result :=
  match main argv (State w []) with
  | (inl status, s) => Result (Exit status) (st_world s) (st_log s)
  | (inr o, s) => Result o (st_world s) (st_log s)
  end.

(** ** Building images

    The on-disk format, used to state the round trip and to build concrete
    inputs: a header, padding to the page boundary, the ramdisk, padding to
    the page boundary, the dtb. Page boundaries are those of the format
    (exact arithmetic), not those of the extractor's macros. *)

Definition byte_of_Z (z : Z) : byte :=
  default x00 (Byte.of_N (Z.to_N (z mod 256))).

Fixpoint le_split (n : nat) (z : Z) : list byte :=
  match n with
  | O => []
  | S n' => byte_of_Z z :: le_split n' (z / 256)
  end.

(** A fixed-size character array holding [s], zero filled. *)
Definition char_array (size : nat) (s : list byte) : list byte :=
  take size (s ++ repeat x00 size).

Record hdr_fields := HdrFields {
  hf_magic : list byte;
  hf_header_version : Z;
  hf_page_size : Z;
  hf_kernel_addr : Z;
  hf_ramdisk_addr : Z;
  hf_vendor_ramdisk_size : Z;
  hf_cmdline : list byte;
  hf_tags_addr : Z;
  hf_name : list byte;
  hf_header_size : Z;
  hf_dtb_size : Z;
  hf_dtb_addr : Z
}.

Definition encode_hdr (h : hdr_fields) : list byte :=
  char_array 8 (hf_magic h)
  ++ le_split 4 (hf_header_version h)
  ++ le_split 4 (hf_page_size h)
  ++ le_split 4 (hf_kernel_addr h)
  ++ le_split 4 (hf_ramdisk_addr h)
  ++ le_split 4 (hf_vendor_ramdisk_size h)
  ++ char_array 2048 (hf_cmdline h)
  ++ le_split 4 (hf_tags_addr h)
  ++ char_array 16 (hf_name h)
  ++ le_split 4 (hf_header_size h)
  ++ le_split 4 (hf_dtb_size h)
  ++ le_split 8 (hf_dtb_addr h).

(** Page-aligned size in exact arithmetic. *)
Definition page_align (size page_size : Z) : Z := ceil_div size page_size * page_size.

Definition padding (size page_size : Z) (fill : byte) : list byte :=
  repeat fill (Z.to_nat (page_align size page_size - size)).

Definition build_image (hdr : list byte) (page_size : Z) (fill : byte)
           (ramdisk dtb : list byte) : list byte :=
  hdr ++ padding (Z.of_nat (length hdr)) page_size fill
      ++ ramdisk ++ padding (Z.of_nat (length ramdisk)) page_size fill
      ++ dtb.

(** A small well-formed image: page size 4096, a 10-byte ramdisk, a 5-byte
    dtb. *)
Definition sample_fields : hdr_fields :=
  HdrFields (list_byte_of_string VENDOR_BOOT_MAGIC) 3 4096 0 0 10
            (list_byte_of_string "console=ttyS0") 0
            (list_byte_of_string "board") 2112 5 0.

Definition sample_ramdisk : list byte := list_byte_of_string "0123456789".
Definition sample_dtb : list byte := list_byte_of_string "abcde".

Definition sample_image : list byte :=
  build_image (encode_hdr sample_fields) 4096 x00 sample_ramdisk sample_dtb.

Definition world_with (path : string) (img : list byte) : world :=
  World {[ path := img ]} ∅.

(** ** Views of a run, used to state the properties *)

(** The transfers requested from input streams, in order:
    path, offset, size. *)
Definition freads (log : list event) : list (string * Z * Z) :=
  omap (fun e => match e with
                 | Fread p o s => Some (p, o, s)
                 | _ => None
                 end) log.

(** Does the log show an output file being created or written? *)
Definition touches_output (e : event) : bool :=
  match e with
  | Fopen _ mode => String.eqb mode "w"
  | Fwrite _ _ => true
  | _ => false
  end.

(** Does the log show any file operation at all? *)
Definition is_file_io (e : event) : bool :=
  match e with
  | Fopen _ _ | Fseek _ _ | Fread _ _ _ | Fwrite _ _ | Fclose _ => true
  | _ => false
  end.

(** The header an image starts with, as [fread] stores it. *)
Definition header_of (img : list byte) : list byte :=
  take (Z.to_nat VENDOR_HEADER_SIZE) img.

Definition magic_ok (img : list byte) : Prop :=
  take (Z.to_nat VENDOR_BOOT_MAGIC_SIZE) img = list_byte_of_string VENDOR_BOOT_MAGIC.

#[global] Instance magic_ok_dec img : Decision (magic_ok img).
Proof. unfold magic_ok. apply _. Defined.

(** The image with its [header_size] member replaced. *)
Definition set_header_size (img : list byte) (v : Z) : list byte :=
  take (Z.to_nat Hdr.OFF_HEADER_SIZE) img
  ++ le_split 4 v
  ++ drop (Z.to_nat (Hdr.OFF_HEADER_SIZE + 4)) img.

Definition with_file (w : world) (path : string) (content : list byte) : world :=
  World (<[path := content]> (files w)) (unwritable w).

(** The events of a run up to each stage of [main]. *)
Definition log_header (path : string) : list event :=
  [Fopen path "r"; Progress "--> Reading header...";
   Fread path 0 VENDOR_HEADER_SIZE].

Definition log_ramdisk_read (path : string) (a rd : Z) : list event :=
  log_header path
  ++ [Fseek path a; Progress "--> Reading ramdisk..."; Fread path a rd].

Definition log_ramdisk_written (path : string) (a rd : Z) : list event :=
  log_ramdisk_read path a rd
  ++ [Fopen VENDOR_RAMDISK "w"; Fwrite VENDOR_RAMDISK rd; Fclose VENDOR_RAMDISK].

Definition log_dtb_read (path : string) (a rd off dtb : Z) : list event :=
  log_ramdisk_written path a rd
  ++ [Fseek path off; Progress "--> Reading dtb..."; Fread path off dtb].

Definition log_success (path : string) (a rd off dtb : Z) (hdr : list byte)
  : list event :=
  log_dtb_read path a rd off dtb
  ++ [Fopen VENDOR_DTB "w"; Fwrite VENDOR_DTB dtb;
      Report "cmdline" (scan_cstr (Hdr.cmdline hdr));
      Report "product name" (scan_cstr (Hdr.name hdr));
      Fclose VENDOR_DTB; Fclose path].

(** The bytes of a file from [off], [size] of them. *)
Definition segment (content : list byte) (off size : Z) : list byte :=
  take (Z.to_nat size) (drop (Z.to_nat off) content).

(** Bytes left in a file from position [pos]. *)
Definition remaining (content : list byte) (pos : Z) : Z :=
  Z.max 0 (Z.of_nat (length content) - pos).

(** An image in the on-disk format: header, padding to the page boundary,
    ramdisk, padding to the page boundary, dtb; whatever follows the dtb
    is not part of the format. *)
Definition well_formed_image (hdr : list byte) (page_size : Z)
           (ramdisk dtb img : list byte) : Prop :=
  exists pad1 pad2 rest : list byte,
    Z.of_nat (length pad1)
    = page_align (Z.of_nat (length hdr)) page_size - Z.of_nat (length hdr)
    /\ Z.of_nat (length pad2)
       = page_align (Z.of_nat (length ramdisk)) page_size - Z.of_nat (length ramdisk)
    /\ img = hdr ++ pad1 ++ ramdisk ++ pad2 ++ dtb ++ rest.

(** ** Concrete inputs *)

Definition with_sizes (page_size rd dtb : Z) : hdr_fields :=
  HdrFields (list_byte_of_string VENDOR_BOOT_MAGIC) 3 page_size 0 0 rd
            (list_byte_of_string "console=ttyS0") 0
            (list_byte_of_string "board") 2112 dtb 0.

(** A header that declares a page size of 0. *)
Definition zero_page_image : list byte :=
  encode_hdr (with_sizes 0 10 5) ++ sample_ramdisk ++ sample_dtb.

(** An image whose ramdisk is declared empty. *)
Definition empty_ramdisk_image : list byte :=
  build_image (encode_hdr (with_sizes 4096 0 5)) 4096 x00 [] sample_dtb.

(** An image whose dtb is declared empty. *)
Definition empty_dtb_image : list byte :=
  build_image (encode_hdr (with_sizes 4096 10 0)) 4096 x00 sample_ramdisk [].

(** The sample image cut inside its ramdisk, and cut inside its dtb. *)
Definition cut_ramdisk_image : list byte := take (Z.to_nat 4100) sample_image.
Definition cut_dtb_image : list byte := take (Z.to_nat 8194) sample_image.

(** The sample image with [cmdline] and [name] filled to the last byte. *)
Definition unterminated_fields : hdr_fields :=
  HdrFields (list_byte_of_string VENDOR_BOOT_MAGIC) 3 4096 0 0 10
            (repeat "A"%byte 2048) 16843009
            (repeat "B"%byte 16) 2112 5 0.

Definition unterminated_image : list byte :=
  build_image (encode_hdr unterminated_fields) 4096 x00 sample_ramdisk sample_dtb.

(** ** The exits of [main]

    One rule per way out of [main], in source order: what must hold of the
    arguments and the world for the run to leave there, and the result it
    leaves with. *)

(** The operand names a file that holds a whole header with the magic. *)
Definition header_accepted (w : world) (path : string) (img : list byte) : Prop :=
  files w !! path = Some img
  /\ VENDOR_HEADER_SIZE <= Z.of_nat (length img)
  /\ magic_ok img.

Inductive ends : list string -> world -> result -> Prop :=
| ends_usage argv w :
    length argv <> 2%nat ->
    ends argv w (Result (Exit EXIT_SUCCESS) w [Diag ErrArgCount; Usage (argv !! 0%nat)])
| ends_no_file app path w :
    files w !! path = None ->
    ends [app; path] w
         (Result (Exit EXIT_FAILURE) w [Fopen path "r"; Diag (ErrOpen path)])
| ends_short_header app path w img :
    files w !! path = Some img ->
    Z.of_nat (length img) < VENDOR_HEADER_SIZE ->
    ends [app; path] w
         (Result (Exit EXIT_FAILURE) w
                 (log_header path ++ [Diag (ErrRead true); Fclose path]))
| ends_bad_magic app path w img :
    files w !! path = Some img ->
    VENDOR_HEADER_SIZE <= Z.of_nat (length img) ->
    ~ magic_ok img ->
    ends [app; path] w
         (Result (Exit EXIT_FAILURE) w
                 (log_header path
                  ++ [Diag (ErrMagic (scan_cstr (header_of img))); Fclose path]))
| ends_zero_page app path w img :
    header_accepted w path img ->
    Hdr.page_size (header_of img) = 0 ->
    ends [app; path] w (Result (Fault DivByZero) w (log_header path))
| ends_ramdisk_unread app path w img a :
    header_accepted w path img ->
    ALIGN VENDOR_HEADER_SIZE (Hdr.page_size (header_of img)) = Some a ->
    Hdr.vendor_ramdisk_size (header_of img) = 0
    \/ Z.of_nat (length img) < a + Hdr.vendor_ramdisk_size (header_of img) ->
    ends [app; path] w
         (Result (Exit EXIT_FAILURE) w
                 (log_ramdisk_read path a (Hdr.vendor_ramdisk_size (header_of img))
                  ++ [Diag (ErrRead (negb (Hdr.vendor_ramdisk_size (header_of img) =? 0)));
                      Fclose path]))
| ends_ramdisk_denied app path w img a :
    header_accepted w path img ->
    ALIGN VENDOR_HEADER_SIZE (Hdr.page_size (header_of img)) = Some a ->
    0 < Hdr.vendor_ramdisk_size (header_of img)
    /\ a + Hdr.vendor_ramdisk_size (header_of img) <= Z.of_nat (length img) ->
    VENDOR_RAMDISK ∈ unwritable w ->
    ends [app; path] w
         (Result (Exit EXIT_FAILURE) w
                 (log_ramdisk_read path a (Hdr.vendor_ramdisk_size (header_of img))
                  ++ [Fopen VENDOR_RAMDISK "w"; Diag (ErrOpen VENDOR_RAMDISK);
                      Fclose path]))
| ends_dtb_unread app path w img a b img1 :
    header_accepted w path img ->
    ALIGN VENDOR_HEADER_SIZE (Hdr.page_size (header_of img)) = Some a ->
    0 < Hdr.vendor_ramdisk_size (header_of img)
    /\ a + Hdr.vendor_ramdisk_size (header_of img) <= Z.of_nat (length img) ->
    VENDOR_RAMDISK ∉ unwritable w ->
    ALIGN (Hdr.vendor_ramdisk_size (header_of img)) (Hdr.page_size (header_of img))
    = Some b ->
    files (with_file w VENDOR_RAMDISK
             (segment img a (Hdr.vendor_ramdisk_size (header_of img)))) !! path
    = Some img1 ->
    Hdr.dtb_size (header_of img) = 0
    \/ Z.of_nat (length img1) < a + b + Hdr.dtb_size (header_of img) ->
    ends [app; path] w
         (Result (Exit EXIT_FAILURE)
                 (with_file w VENDOR_RAMDISK
                    (segment img a (Hdr.vendor_ramdisk_size (header_of img))))
                 (log_dtb_read path a (Hdr.vendor_ramdisk_size (header_of img))
                               (a + b) (Hdr.dtb_size (header_of img))
                  ++ [Diag (ErrRead (negb (Hdr.dtb_size (header_of img) =? 0)));
                      Fclose path]))
| ends_dtb_denied app path w img a b img1 :
    header_accepted w path img ->
    ALIGN VENDOR_HEADER_SIZE (Hdr.page_size (header_of img)) = Some a ->
    0 < Hdr.vendor_ramdisk_size (header_of img)
    /\ a + Hdr.vendor_ramdisk_size (header_of img) <= Z.of_nat (length img) ->
    VENDOR_RAMDISK ∉ unwritable w ->
    ALIGN (Hdr.vendor_ramdisk_size (header_of img)) (Hdr.page_size (header_of img))
    = Some b ->
    files (with_file w VENDOR_RAMDISK
             (segment img a (Hdr.vendor_ramdisk_size (header_of img)))) !! path
    = Some img1 ->
    0 < Hdr.dtb_size (header_of img)
    /\ a + b + Hdr.dtb_size (header_of img) <= Z.of_nat (length img1) ->
    VENDOR_DTB ∈ unwritable w ->
    ends [app; path] w
         (Result (Exit EXIT_FAILURE)
                 (with_file w VENDOR_RAMDISK
                    (segment img a (Hdr.vendor_ramdisk_size (header_of img))))
                 (log_dtb_read path a (Hdr.vendor_ramdisk_size (header_of img))
                               (a + b) (Hdr.dtb_size (header_of img))
                  ++ [Fopen VENDOR_DTB "w"; Diag (ErrOpen VENDOR_DTB); Fclose path]))
| ends_success app path w img a b img1 :
    header_accepted w path img ->
    ALIGN VENDOR_HEADER_SIZE (Hdr.page_size (header_of img)) = Some a ->
    0 < Hdr.vendor_ramdisk_size (header_of img)
    /\ a + Hdr.vendor_ramdisk_size (header_of img) <= Z.of_nat (length img) ->
    VENDOR_RAMDISK ∉ unwritable w ->
    ALIGN (Hdr.vendor_ramdisk_size (header_of img)) (Hdr.page_size (header_of img))
    = Some b ->
    files (with_file w VENDOR_RAMDISK
             (segment img a (Hdr.vendor_ramdisk_size (header_of img)))) !! path
    = Some img1 ->
    0 < Hdr.dtb_size (header_of img)
    /\ a + b + Hdr.dtb_size (header_of img) <= Z.of_nat (length img1) ->
    VENDOR_DTB ∉ unwritable w ->
    ends [app; path] w
         (Result (Exit EXIT_SUCCESS)
                 (with_file
                    (with_file w VENDOR_RAMDISK
                       (segment img a (Hdr.vendor_ramdisk_size (header_of img))))
                    VENDOR_DTB (segment img1 (a + b) (Hdr.dtb_size (header_of img))))
                 (log_success path a (Hdr.vendor_ramdisk_size (header_of img))
                              (a + b) (Hdr.dtb_size (header_of img)) (header_of img))).

(** Streams open at the end of a log: every [fopen] counts one, a failed
    [fopen] (reported by its diagnostic) gives it back, every [fclose]
    takes one. *)
Definition open_delta (e : event) : Z :=
  match e with
  | Fopen _ _ => 1
  | Diag (ErrOpen _) => -1
  | Fclose _ => -1
  | _ => 0
  end.

Definition open_count (log : list event) : Z :=
  fold_right (fun e n => open_delta e + n) 0 log.

(** The offsets handed to [fseek], in order. *)
Definition fseeks (log : list event) : list Z :=
  omap (fun e => match e with
                 | Fseek _ o => Some o
                 | _ => None
                 end) log.

(** The sizes handed to [fwrite], in order. *)
Definition fwrites (log : list event) : list (string * Z) :=
  omap (fun e => match e with
                 | Fwrite p n => Some (p, n)
                 | _ => None
                 end) log.

(** The strings reported on success, in order. *)
Definition reports (log : list event) : list (string * cscan) :=
  omap (fun e => match e with
                 | Report label s => Some (label, s)
                 | _ => None
                 end) log.

(** What it takes for an operand to be extracted: an accepted header, a
    nonzero page size, both segments nonempty and wholly in the file at
    their offsets, both artifacts writable. *)
Definition extractable (w : world) (path : string) : Prop :=
  exists img a b,
    header_accepted w path img
    /\ ALIGN VENDOR_HEADER_SIZE (Hdr.page_size (header_of img)) = Some a
    /\ (0 < Hdr.vendor_ramdisk_size (header_of img)
        /\ a + Hdr.vendor_ramdisk_size (header_of img) <= Z.of_nat (length img))
    /\ (VENDOR_RAMDISK ∉ unwritable w)
    /\ ALIGN (Hdr.vendor_ramdisk_size (header_of img)) (Hdr.page_size (header_of img))
       = Some b
    /\ (0 < Hdr.dtb_size (header_of img)
        /\ a + b + Hdr.dtb_size (header_of img) <= Z.of_nat (length img))
    /\ (VENDOR_DTB ∉ unwritable w).

(** The diagnostics of the two library failures the world here never
    produces: a refused [fseek] and an incomplete [fwrite]. *)
Definition reports_io_failure (e : event) : bool :=
  match e with
  | Diag (ErrSeek _) | Diag (ErrWrite _) => true
  | _ => false
  end.

(** The streams open after a log, most recent first, starting from
    [opened]: [fopen] puts its path on top, the diagnostic of a failed
    [fopen] takes it back, and [fclose] must name the stream on top.
    [None]: something was closed that was not the most recent open
    stream. *)
Fixpoint open_streams (log : list event) (opened : list string)
  : option (list string) :=
  match log with
  | [] => Some opened
  | e :: rest =>
      match e with
      | Fopen p _ => open_streams rest (p :: opened)
      | Diag (ErrOpen p) | Fclose p =>
          match opened with
          | q :: opened' =>
              if String.eqb p q then open_streams rest opened' else None
          | [] => None
          end
      | _ => open_streams rest opened
      end
  end.

(** * Properties *)

(** ** Machine arithmetic *)

Section Arith.

Lemma u32_range z : 0 <= u32 z < UINT32_MOD.
Proof. unfold u32, UINT32_MOD. apply Z.mod_pos_bound. lia. Qed.

Lemma u32_small z : 0 <= z < UINT32_MOD -> u32 z = z.
Proof. intros H. unfold u32. apply Z.mod_small. exact H. Qed.

Lemma long_small z : 0 <= z <= LONG_MAX -> long z = z.
Proof.
  intros H. unfold long. cbv zeta.
  rewrite Z.mod_small by (unfold LONG_MAX, LONG_MOD in *; lia).
  destruct (Z.leb_spec z LONG_MAX); lia.
Qed.

Lemma long_of_u32 z : 0 <= z < UINT32_MOD -> long z = z.
Proof. intros H. apply long_small. unfold UINT32_MOD, LONG_MAX in *. lia. Qed.

Lemma long_add_u32 a b :
  0 <= a < UINT32_MOD -> 0 <= b < UINT32_MOD -> long_add a b = a + b.
Proof.
  intros Ha Hb. unfold long_add. apply long_small.
  unfold UINT32_MOD, LONG_MAX in *. lia.
Qed.

(** The sum-and-subtract of [PAGES] wraps once, as a whole. *)
Lemma u32_sub_add s p : u32_sub (u32_add s p) 1 = u32 (s + p - 1).
Proof.
  unfold u32_sub, u32_add, u32. apply Zminus_mod_idemp_l.
Qed.

Lemma ceil_div_eq s p : 0 < p -> ceil_div s p = (s + p - 1) / p.
Proof.
  intros Hp. unfold ceil_div.
  pose proof (Z.div_mod s p ltac:(lia)) as Hdm.
  pose proof (Z.mod_pos_bound s p Hp) as Hm.
  destruct (Z.eqb_spec (s mod p) 0) as [Hz | Hnz].
  - apply Z.div_unique with (r := p - 1); lia.
  - apply Z.div_unique with (r := s mod p - 1); lia.
Qed.

Lemma page_align_ge s p : 0 < p -> s <= page_align s p.
Proof.
  intros Hp. unfold page_align, ceil_div.
  pose proof (Z.div_mod s p ltac:(lia)) as Hdm.
  pose proof (Z.mod_pos_bound s p Hp) as Hm.
  destruct (Z.eqb_spec (s mod p) 0); nia.
Qed.

Lemma page_align_lt s p : 0 < p -> page_align s p - s < p.
Proof.
  intros Hp. unfold page_align, ceil_div.
  pose proof (Z.div_mod s p ltac:(lia)) as Hdm.
  pose proof (Z.mod_pos_bound s p Hp) as Hm.
  destruct (Z.eqb_spec (s mod p) 0); nia.
Qed.

Lemma ALIGN_zero s : ALIGN s 0 = None.
Proof. reflexivity. Qed.

(** With a nonzero page size the macro yields an [unsigned int]. *)
Lemma ALIGN_some s p :
  p <> 0 -> exists a, ALIGN s p = Some a /\ 0 <= a < UINT32_MOD.
Proof.
  intros Hp. unfold ALIGN, PAGES, u32_div.
  destruct (Z.eqb_spec p 0) as [|_]; [contradiction|].
  eexists. split; [reflexivity|]. apply u32_range.
Qed.

Lemma ALIGN_range s p a : ALIGN s p = Some a -> 0 <= a < UINT32_MOD.
Proof.
  unfold ALIGN. destruct (PAGES s p); [|discriminate].
  intros [= <-]. apply u32_range.
Qed.

Lemma ALIGN_nonzero s p a : ALIGN s p = Some a -> p <> 0.
Proof. intros H ->. rewrite ALIGN_zero in H. discriminate. Qed.

(** Where the sum does not wrap, the macro is the format's alignment. *)
Lemma ALIGN_page_align s p :
  0 <= s -> 0 < p -> s + p - 1 < UINT32_MOD ->
  ALIGN s p = Some (page_align s p).
Proof.
  intros Hs Hp Hb. unfold ALIGN, PAGES, u32_div.
  destruct (Z.eqb_spec p 0) as [|_]; [lia|].
  rewrite u32_sub_add, (u32_small (s + p - 1)) by lia.
  unfold u32_mul, page_align. rewrite ceil_div_eq by lia.
  f_equal. apply u32_small.
  pose proof (Z.mul_div_le (s + p - 1) p Hp) as Hle.
  split; [|lia].
  apply Z.mul_nonneg_nonneg; [|lia]. apply Z.div_pos; lia.
Qed.

End Arith.

(** C3, as stated, fails where the 32-bit sum wraps: with the header size
    2112 and the page size 4294967295 the macro yields 0, although the
    aligned size, one page, is itself a 32-bit value. *)
Lemma ALIGN_wraps :
  ~ (forall s p : Z, is_u32 s -> is_u32 p -> 0 < p ->
       exists a, ALIGN s p = Some a /\ a = ceil_div s p * p /\ s <= a /\ a - s < p).
Proof.
  intros H.
  destruct (H VENDOR_HEADER_SIZE 4294967295) as (a & Ha & _ & Hge & _);
    [unfold is_u32, UINT32_MOD, VENDOR_HEADER_SIZE; lia .. | ].
  vm_compute in Ha. injection Ha as <-. unfold VENDOR_HEADER_SIZE in Hge. lia.
Qed.

(** C3 (amended): for every page size P > 0 and size S >= 0 whose sum
    S + P - 1 fits 32 bits, the alignment computation yields
    ceil(S/P) * P, which is at least S and exceeds S by less than P. *)
Theorem ALIGN_ceil (s p : Z) :
  0 <= s -> 0 < p -> s + p - 1 < UINT32_MOD ->
  exists a, ALIGN s p = Some a /\ a = ceil_div s p * p /\ s <= a /\ a - s < p.
Proof.
  intros Hs Hp Hb. exists (page_align s p).
  split; [apply ALIGN_page_align; assumption|].
  split; [reflexivity|].
  split; [apply page_align_ge | apply page_align_lt]; assumption.
Qed.

Lemma ALIGN_ceil_witness :
  exists a, ALIGN 2112 4096 = Some a /\ a = ceil_div 2112 4096 * 4096
            /\ 2112 <= a /\ a - 2112 < 4096.
Proof. apply (ALIGN_ceil 2112 4096); unfold UINT32_MOD; lia. Defined.

(** ** Bytes, loads and string comparison *)

Section Bytes.

Lemma byte_val_range b : 0 <= byte_val b < 256.
Proof.
  unfold byte_val. pose proof (Byte.to_N_bounded b). lia.
Qed.

Lemma byte_val_inj a b : byte_val a = byte_val b -> a = b.
Proof.
  unfold byte_val. intros H. apply N2Z.inj in H.
  pose proof (Byte.of_to_N a) as Ha. rewrite H, Byte.of_to_N in Ha.
  congruence.
Qed.

Lemma le_combine_range bs :
  0 <= le_combine bs < 256 ^ Z.of_nat (length bs).
Proof.
  induction bs as [|b bs IH]; cbn [le_combine length].
  - change (256 ^ Z.of_nat 0) with 1. lia.
  - rewrite Nat2Z.inj_succ, Z.pow_succ_r by lia.
    pose proof (byte_val_range b). lia.
Qed.

Lemma load_u32_range mem off : 0 <= load_u32 mem off < UINT32_MOD.
Proof.
  unfold load_u32.
  pose proof (le_combine_range (take 4 (drop (Z.to_nat off) mem))) as H.
  assert (Hlen : (length (take 4 (drop (Z.to_nat off) mem)) <= 4)%nat)
    by (rewrite length_take; lia).
  assert (256 ^ Z.of_nat (length (take 4 (drop (Z.to_nat off) mem))) <= 256 ^ 4)
    by (apply Z.pow_le_mono_r; lia).
  change (256 ^ 4) with UINT32_MOD in *. lia.
Qed.

(** Against a literal without an inner NUL, [strncmp] over the literal's
    length is zero exactly on equal prefixes. *)
Lemma strncmp_literal lit : forall s1 rest,
  Forall (fun c => c <> x00) lit ->
  (length lit <= length s1)%nat ->
  strncmp s1 (lit ++ rest) (length lit) = 0 <-> take (length lit) s1 = lit.
Proof.
  induction lit as [|c2 lit IH]; intros s1 rest Hnz Hlen.
  - cbn. tauto.
  - destruct s1 as [|c1 t1]; [cbn in Hlen; lia|].
    apply Forall_cons in Hnz as [Hc2 Hnz].
    cbn [length strncmp app take firstn].
    destruct (Byte.eqb c1 c2) eqn:E; cbn [negb].
    + apply Byte.byte_dec_bl in E. subst c1.
      destruct (Byte.eqb c2 x00) eqn:E0.
      { apply Byte.byte_dec_bl in E0. contradiction. }
      rewrite IH by (cbn in Hlen; first [assumption | lia]).
      split; [intros ->; reflexivity | intros H; injection H; auto].
    + apply Byte.eqb_false in E.
      split.
      * intros H. exfalso. apply E, byte_val_inj. lia.
      * intros H. injection H as H1 _. contradiction.
Qed.

Lemma magic_literal_nonzero :
  Forall (fun c => c <> x00) (list_byte_of_string VENDOR_BOOT_MAGIC).
Proof. repeat constructor; discriminate. Qed.

Lemma strncmp_magic hdr :
  (8 <= length hdr)%nat ->
  strncmp hdr magic_literal (Z.to_nat VENDOR_BOOT_MAGIC_SIZE) = 0
  <-> take 8 hdr = list_byte_of_string VENDOR_BOOT_MAGIC.
Proof.
  intros Hlen.
  apply (strncmp_literal (list_byte_of_string VENDOR_BOOT_MAGIC) hdr [x00]).
  - apply magic_literal_nonzero.
  - exact Hlen.
Qed.

Lemma length_header_of img :
  VENDOR_HEADER_SIZE <= Z.of_nat (length img) ->
  length (header_of img) = Z.to_nat VENDOR_HEADER_SIZE.
Proof.
  intros H. unfold header_of. rewrite length_take. lia.
Qed.

Lemma take_header_of n img :
  (n <= Z.to_nat VENDOR_HEADER_SIZE)%nat ->
  take n (header_of img) = take n img.
Proof.
  intros H. unfold header_of. rewrite take_take. f_equal. lia.
Qed.

(** The magic test of [main], on the header of an image. *)
Lemma magic_test img :
  VENDOR_HEADER_SIZE <= Z.of_nat (length img) ->
  truthy (strncmp (Hdr.magic (header_of img)) magic_literal
                  (Z.to_nat VENDOR_BOOT_MAGIC_SIZE))
  = negb (bool_decide (magic_ok img)).
Proof.
  intros Hlen. unfold truthy. f_equal.
  change (Hdr.magic (header_of img)) with (header_of img).
  pose proof (strncmp_magic (header_of img)) as Hs.
  rewrite (take_header_of 8) in Hs by (unfold VENDOR_HEADER_SIZE; lia).
  rewrite length_header_of in Hs by assumption.
  specialize (Hs ltac:(unfold VENDOR_HEADER_SIZE; lia)).
  unfold magic_ok. change (Z.to_nat VENDOR_BOOT_MAGIC_SIZE) with 8%nat in *.
  destruct (Z.eqb_spec (strncmp (header_of img) magic_literal 8) 0) as [Hz|Hz].
  - symmetry. apply bool_decide_eq_true. tauto.
  - symmetry. apply bool_decide_eq_false. tauto.
Qed.

End Bytes.

(** ** The library operations, one step at a time *)

Section Steps.

Context {A B : Type}.

Lemma bind_inl (m : M A) (k : A -> M B) s x s' :
  m s = (inl x, s') -> bind m k s = k x s'.
Proof. intros H. unfold bind. rewrite H. reflexivity. Qed.

Lemma bind_inr (m : M A) (k : A -> M B) s o s' :
  m s = (inr o, s') -> bind m k s = (inr o, s').
Proof. intros H. unfold bind. rewrite H. reflexivity. Qed.

End Steps.

Section Ops.

Variables (w : world) (l : list event).

Lemma emit_step e : emit e (State w l) = (inl tt, State w (l ++ [e])).
Proof. reflexivity. Qed.

Lemma fclose_step f : fclose f (State w l) = (inl tt, State w (l ++ [Fclose (f_path f)])).
Proof. reflexivity. Qed.

Lemma parse_args_two app path :
  parse_args [app; path] (State w l) = (inl (0, path), State w l).
Proof. reflexivity. Qed.

Lemma parse_args_other argv :
  length argv <> 2%nat ->
  parse_args argv (State w l)
  = (inl (-1, ""%string), State w (l ++ [Diag ErrArgCount; Usage (argv !! 0%nat)])).
Proof.
  intros H. unfold parse_args.
  destruct (Z.eqb_spec (Z.of_nat (length argv)) 2) as [E|_]; [lia|].
  cbn [negb]. unfold print_usage, bind, emit, ret. cbn.
  rewrite <- app_assoc. reflexivity.
Qed.

Lemma fopen_r_some path content :
  files w !! path = Some content ->
  fopen_r path (State w l)
  = (inl (Some (File path 0 false)), State w (l ++ [Fopen path "r"])).
Proof.
  intros H. unfold fopen_r, bind, emit, get_world, ret. cbn. rewrite H. reflexivity.
Qed.

Lemma fopen_r_none path :
  files w !! path = None ->
  fopen_r path (State w l) = (inl None, State w (l ++ [Fopen path "r"])).
Proof.
  intros H. unfold fopen_r, bind, emit, get_world, ret. cbn. rewrite H. reflexivity.
Qed.

Lemma fopen_w_ok path :
  path ∉ unwritable w ->
  fopen_w path (State w l)
  = (inl (Some (File path 0 false)),
     State (with_file w path []) (l ++ [Fopen path "w"])).
Proof.
  intros H. unfold fopen_w, bind, emit, get_world, put_files, ret. cbn.
  destruct (decide (path ∈ unwritable w)); [contradiction|]. reflexivity.
Qed.

Lemma fopen_w_denied path :
  path ∈ unwritable w ->
  fopen_w path (State w l) = (inl None, State w (l ++ [Fopen path "w"])).
Proof.
  intros H. unfold fopen_w, bind, emit, get_world, put_files, ret. cbn.
  destruct (decide (path ∈ unwritable w)); [|contradiction]. reflexivity.
Qed.

Lemma fseek_ok f offset :
  0 <= offset ->
  fseek f offset (State w l)
  = (inl (0, File (f_path f) offset false), State w (l ++ [Fseek (f_path f) offset])).
Proof.
  intros H. unfold fseek, bind, emit, ret. cbn.
  destruct (Z.ltb_spec offset 0); [lia|]. reflexivity.
Qed.

Lemma eval_u32_some v : eval_u32 (Some v) (State w l) = (inl v, State w l).
Proof. reflexivity. Qed.

Lemma eval_u32_none : eval_u32 None (State w l) = (inr (Fault DivByZero), State w l).
Proof. reflexivity. Qed.

(** A whole item is there: [file_read] stores it and returns 0. *)
Lemma file_read_ok size path pos e content :
  files w !! path = Some content ->
  0 < size -> 0 <= pos -> pos + size <= Z.of_nat (length content) ->
  file_read size (File path pos e) (State w l)
  = (inl (0, take (Z.to_nat size) (drop (Z.to_nat pos) content), File path (pos + size) e),
     State w (l ++ [Fread path pos size])).
Proof.
  intros Hc Hs Hp Hle.
  unfold file_read, fread, bind, emit, get_world, ret. cbn.
  rewrite Hc. change (default [] (Some content)) with content.
  destruct (Z.eqb_spec size 0) as [|_]; [lia|].
  rewrite length_take, length_drop.
  destruct (Z.ltb_spec (Z.of_nat (Z.to_nat size `min` (length content - Z.to_nat pos))) size);
    [lia|].
  reflexivity.
Qed.

(** The item is empty or reaches past the end of the file: [file_read]
    reports the error and returns -1; the end-of-file indicator is set by
    a short read only. *)
Lemma file_read_fail size path pos content :
  files w !! path = Some content ->
  0 <= size -> 0 <= pos ->
  size = 0 \/ Z.of_nat (length content) < pos + size ->
  exists data f',
    f_path f' = path /\
    file_read size (File path pos false) (State w l)
    = (inl (-1, data, f'),
       State w (l ++ [Fread path pos size; Diag (ErrRead (negb (size =? 0)))])).
Proof.
  intros Hc Hs Hp Hcase.
  unfold file_read, fread, bind, emit, get_world, ret. cbn.
  rewrite Hc. change (default [] (Some content)) with content.
  destruct (Z.eqb_spec size 0) as [Hz|Hnz].
  - do 2 eexists. cbn. rewrite <- app_assoc. split; [|reflexivity]. reflexivity.
  - destruct Hcase as [|Hshort]; [contradiction|].
    rewrite length_take, length_drop.
    destruct (Z.ltb_spec (Z.of_nat (Z.to_nat size `min` (length content - Z.to_nat pos))) size);
      [|lia].
    do 2 eexists. cbn. rewrite <- app_assoc. split; [|reflexivity]. reflexivity.
Qed.

Lemma err1_step f code :
  err1 f code (State w l) = (inl code, State w (l ++ [Fclose (f_path f)])).
Proof. reflexivity. Qed.

Lemma err2_step f code :
  err2 f code (State w l) = (inl code, State w (l ++ [Fclose (f_path f)])).
Proof. reflexivity. Qed.

Lemma err3_step f_wr f code :
  err3 f_wr f code (State w l)
  = (inl code, State w (l ++ [Fclose (f_path f_wr); Fclose (f_path f)])).
Proof.
  unfold err3, err2, err1, fclose, bind, emit, ret. cbn.
  rewrite <- app_assoc. reflexivity.
Qed.

(** Writing a whole nonempty buffer to a stream just opened. *)
Lemma file_write_ok buf size path :
  0 < size -> Z.of_nat (length buf) = size ->
  file_write buf size (File path 0 false) (State (with_file w path []) l)
  = (inl (0, File path size false),
     State (with_file w path buf) (l ++ [Fwrite path size])).
Proof.
  intros Hs Hlen.
  unfold file_write, fwrite, bind, emit, get_world, put_files, ret. cbn.
  destruct (Z.eqb_spec size 0) as [|_]; [lia|].
  cbn. rewrite lookup_insert_eq, insert_insert_eq.
  change (overwrite (default [] (Some [])) (Z.to_nat 0) (take (Z.to_nat size) buf))
    with (take (Z.to_nat size) buf ++ drop (length (take (Z.to_nat size) buf)) []).
  rewrite drop_nil, app_nil_r, Z.add_0_l, take_ge by lia. reflexivity.
Qed.

End Ops.

(** One step of a run: resolve the leading operation with [tac], then
    reduce the continuation applied to its result. *)
Ltac io_simpl :=
  cbv beta iota zeta;
  change (truthy 0) with false;
  change (truthy (-1)) with true;
  cbv beta iota zeta.

Ltac step tac := erewrite bind_inl by tac; io_simpl.
Ltac last_step tac := erewrite bind_inr by tac; io_simpl.

(** ** Every way a run can go

    One lemma per exit of [main], each giving the whole result. *)

Lemma read_header_ok w l path img :
  files w !! path = Some img ->
  VENDOR_HEADER_SIZE <= Z.of_nat (length img) ->
  file_read sizeof_hdr (File path 0 false) (State w l)
  = (inl (0, header_of img, File path VENDOR_HEADER_SIZE false),
     State w (l ++ [Fread path 0 VENDOR_HEADER_SIZE])).
Proof.
  intros Hf Hlen.
  apply (file_read_ok w l sizeof_hdr path 0 false img Hf).
  - reflexivity.
  - lia.
  - exact Hlen.
Qed.

Lemma run_usage argv w :
  length argv <> 2%nat ->
  run argv w
  = Result (Exit EXIT_SUCCESS) w [Diag ErrArgCount; Usage (argv !! 0%nat)].
Proof.
  intros H. unfold run, main.
  step ltac:(apply parse_args_other; exact H).
  reflexivity.
Qed.

Section Run.

Variables (app path : string) (w : world).

Lemma run_no_file :
  files w !! path = None ->
  run [app; path] w
  = Result (Exit EXIT_FAILURE) w [Fopen path "r"; Diag (ErrOpen path)].
Proof.
  intros H. unfold run, main.
  step ltac:(apply parse_args_two).
  step ltac:(apply fopen_r_none; exact H).
  reflexivity.
Qed.

Variable img : list byte.
Hypothesis Hfile : files w !! path = Some img.

Lemma run_short_header :
  Z.of_nat (length img) < VENDOR_HEADER_SIZE ->
  run [app; path] w
  = Result (Exit EXIT_FAILURE) w
           (log_header path ++ [Diag (ErrRead true); Fclose path]).
Proof.
  intros Hlen. unfold run, main.
  destruct (file_read_fail w
              ([Fopen path "r"] ++ [Progress "--> Reading header..."])
              sizeof_hdr path 0 img Hfile)
    as (data & f' & Hpath & Hread);
    [ discriminate | lia | right; exact Hlen | ].
  step ltac:(apply parse_args_two).
  step ltac:(eapply fopen_r_some; exact Hfile).
  step ltac:(apply emit_step).
  step ltac:(exact Hread).
  rewrite err1_step, Hpath. reflexivity.
Qed.

Hypothesis Hlen : VENDOR_HEADER_SIZE <= Z.of_nat (length img).

Abbreviation hdr := (header_of img).
Abbreviation ps := (Hdr.page_size (header_of img)).
Abbreviation rd := (Hdr.vendor_ramdisk_size (header_of img)).
Abbreviation dtb := (Hdr.dtb_size (header_of img)).

(** The common start of every run on an image with a whole header. *)
Ltac read_header :=
  unfold run, main;
  step ltac:(apply parse_args_two);
  step ltac:(eapply fopen_r_some; exact Hfile);
  step ltac:(apply emit_step);
  step ltac:(apply read_header_ok; [exact Hfile | exact Hlen]);
  rewrite magic_test by exact Hlen.

Lemma run_bad_magic :
  ~ magic_ok img ->
  run [app; path] w
  = Result (Exit EXIT_FAILURE) w
           (log_header path ++ [Diag (ErrMagic (scan_cstr hdr)); Fclose path]).
Proof.
  intros Hm. read_header.
  rewrite bool_decide_eq_false_2 by exact Hm. cbn [negb].
  step ltac:(apply emit_step).
  rewrite err1_step. reflexivity.
Qed.

Hypothesis Hmagic : magic_ok img.

Ltac check_magic :=
  read_header; rewrite bool_decide_eq_true_2 by exact Hmagic; cbn [negb].

Lemma run_zero_page :
  ps = 0 ->
  run [app; path] w = Result (Fault DivByZero) w (log_header path).
Proof.
  intros Hz. check_magic.
  last_step ltac:(rewrite Hz, ALIGN_zero; apply eval_u32_none).
  reflexivity.
Qed.

Variable a : Z.
Hypothesis Ha : ALIGN VENDOR_HEADER_SIZE ps = Some a.

Lemma header_aligned_range : 0 <= a < UINT32_MOD.
Proof. exact (ALIGN_range _ _ _ Ha). Qed.

Ltac seek_ramdisk :=
  check_magic;
  step ltac:(rewrite Ha; apply eval_u32_some);
  rewrite !(long_of_u32 a) by exact header_aligned_range;
  step ltac:(apply fseek_ok; pose proof header_aligned_range; lia);
  step ltac:(apply emit_step).

Lemma run_ramdisk_unread :
  rd = 0 \/ Z.of_nat (length img) < a + rd ->
  run [app; path] w
  = Result (Exit EXIT_FAILURE) w
           (log_ramdisk_read path a rd
            ++ [Diag (ErrRead (negb (rd =? 0))); Fclose path]).
Proof.
  intros Hcase.
  pose proof header_aligned_range as Hr.
  pose proof (load_u32_range hdr Hdr.OFF_VENDOR_RAMDISK_SIZE) as Hrd.
  destruct (file_read_fail w
              (log_header path
               ++ [Fseek path a] ++ [Progress "--> Reading ramdisk..."])
              rd path a img Hfile)
    as (data & f' & Hpath & Hread); [ apply Hrd | lia | exact Hcase | ].
  seek_ramdisk.
  step ltac:(exact Hread).
  rewrite err2_step, Hpath. reflexivity.
Qed.

Hypothesis Hrd : 0 < rd /\ a + rd <= Z.of_nat (length img).

Ltac read_ramdisk :=
  seek_ramdisk;
  step ltac:(eapply file_read_ok;
             [exact Hfile | apply Hrd | apply header_aligned_range | apply Hrd]).

Lemma run_ramdisk_denied :
  VENDOR_RAMDISK ∈ unwritable w ->
  run [app; path] w
  = Result (Exit EXIT_FAILURE) w
           (log_ramdisk_read path a rd
            ++ [Fopen VENDOR_RAMDISK "w"; Diag (ErrOpen VENDOR_RAMDISK);
                Fclose path]).
Proof.
  intros Hden. read_ramdisk.
  step ltac:(apply fopen_w_denied; exact Hden).
  step ltac:(apply emit_step).
  rewrite err2_step. reflexivity.
Qed.

Hypothesis Hwr : VENDOR_RAMDISK ∉ unwritable w.

Abbreviation R := (segment img a rd).
Abbreviation w1 := (with_file w VENDOR_RAMDISK (segment img a rd)).

Lemma length_ramdisk : Z.of_nat (length R) = rd.
Proof.
  pose proof header_aligned_range. unfold segment.
  rewrite length_take, length_drop. lia.
Qed.

Variable b : Z.
Hypothesis Hb : ALIGN rd ps = Some b.

Lemma ramdisk_aligned_range : 0 <= b < UINT32_MOD.
Proof. exact (ALIGN_range _ _ _ Hb). Qed.

(** What the input stream holds once the ramdisk artifact is written: the
    image, unless the image is the artifact's path itself. *)
Variable img1 : list byte.
Hypothesis Hfile1 : files w1 !! path = Some img1.

Ltac seek_dtb :=
  read_ramdisk;
  step ltac:(apply fopen_w_ok; exact Hwr);
  step ltac:(apply file_write_ok; [apply Hrd | exact length_ramdisk]);
  step ltac:(apply fclose_step);
  step ltac:(rewrite Hb; apply eval_u32_some);
  rewrite !(long_of_u32 b) by exact ramdisk_aligned_range;
  rewrite !(long_add_u32 a b)
    by first [exact header_aligned_range | exact ramdisk_aligned_range];
  step ltac:(apply fseek_ok;
             pose proof header_aligned_range; pose proof ramdisk_aligned_range; lia);
  step ltac:(apply emit_step).

Lemma run_dtb_unread :
  dtb = 0 \/ Z.of_nat (length img1) < a + b + dtb ->
  run [app; path] w
  = Result (Exit EXIT_FAILURE) w1
           (log_dtb_read path a rd (a + b) dtb
            ++ [Diag (ErrRead (negb (dtb =? 0))); Fclose path]).
Proof.
  intros Hcase.
  pose proof header_aligned_range as Hra.
  pose proof ramdisk_aligned_range as Hrb.
  pose proof (load_u32_range hdr Hdr.OFF_DTB_SIZE) as Hdtb.
  destruct (file_read_fail w1
              (log_ramdisk_written path a rd
               ++ [Fseek path (a + b)] ++ [Progress "--> Reading dtb..."])
              dtb path (a + b) img1 Hfile1)
    as (data & f' & Hpath & Hread); [ apply Hdtb | lia | exact Hcase | ].
  seek_dtb.
  step ltac:(exact Hread).
  rewrite err2_step, Hpath. reflexivity.
Qed.

Hypothesis Hdtb : 0 < dtb /\ a + b + dtb <= Z.of_nat (length img1).

Ltac read_dtb :=
  seek_dtb;
  step ltac:(eapply file_read_ok;
             [ exact Hfile1 | apply Hdtb
             | pose proof header_aligned_range; pose proof ramdisk_aligned_range; lia
             | apply Hdtb ]).

Lemma run_dtb_denied :
  VENDOR_DTB ∈ unwritable w ->
  run [app; path] w
  = Result (Exit EXIT_FAILURE) w1
           (log_dtb_read path a rd (a + b) dtb
            ++ [Fopen VENDOR_DTB "w"; Diag (ErrOpen VENDOR_DTB); Fclose path]).
Proof.
  intros Hden. read_dtb.
  step ltac:(apply fopen_w_denied; exact Hden).
  step ltac:(apply emit_step).
  rewrite err2_step. reflexivity.
Qed.

Lemma length_dtb : Z.of_nat (length (segment img1 (a + b) dtb)) = dtb.
Proof.
  pose proof header_aligned_range. pose proof ramdisk_aligned_range.
  unfold segment. rewrite length_take, length_drop. lia.
Qed.

Lemma run_success :
  VENDOR_DTB ∉ unwritable w ->
  run [app; path] w
  = Result (Exit EXIT_SUCCESS)
           (with_file w1 VENDOR_DTB (segment img1 (a + b) dtb))
           (log_success path a rd (a + b) dtb hdr).
Proof.
  intros Hwd. read_dtb.
  step ltac:(apply fopen_w_ok; exact Hwd).
  step ltac:(apply file_write_ok; [apply Hdtb | exact length_dtb]).
  step ltac:(apply emit_step).
  step ltac:(apply emit_step).
  rewrite err3_step. reflexivity.
Qed.

End Run.

(** ** Exits before any extraction *)

(** C9: for every invocation whose operand count differs from exactly one
    ([argc] is not 2), the program prints the usage guidance, exits with
    the success status and performs no file operation. *)
Theorem usage_exits_success (argv : list string) (w : world) :
  length argv <> 2%nat ->
  r_outcome (run argv w) = Exit EXIT_SUCCESS
  /\ r_log (run argv w) = [Diag ErrArgCount; Usage (argv !! 0%nat)]
  /\ Forall (fun e => is_file_io e = false) (r_log (run argv w))
  /\ r_world (run argv w) = w.
Proof.
  intros H. rewrite (run_usage argv w H). cbn.
  repeat split. repeat constructor.
Qed.

Lemma usage_exits_success_witness :
  length ["unpack_vendor_boot"%string] <> 2%nat
  /\ r_outcome (run ["unpack_vendor_boot"%string]
                    (world_with "vendor_boot.img" sample_image))
     = Exit EXIT_SUCCESS.
Proof.
  assert (H : length ["unpack_vendor_boot"%string] <> 2%nat) by (cbn; lia).
  split; [exact H|].
  apply (usage_exits_success ["unpack_vendor_boot"%string] _ H).
Defined.

(** C5: for every input whose first 8 bytes differ from the ASCII bytes
    VNDRBOOT, the run ends with the failure status, and no output artifact
    is created, written or modified: the file system is left as it was and
    the run opened nothing for writing. *)
Theorem magic_mismatch_aborts (app path : string) (w : world) (img : list byte) :
  files w !! path = Some img ->
  ~ magic_ok img ->
  r_outcome (run [app; path] w) = Exit EXIT_FAILURE
  /\ r_world (run [app; path] w) = w
  /\ Forall (fun e => touches_output e = false) (r_log (run [app; path] w)).
Proof.
  intros Hf Hm.
  destruct (Z.lt_ge_cases (Z.of_nat (length img)) VENDOR_HEADER_SIZE) as [Hs|Hl].
  - rewrite (run_short_header app path w img Hf Hs). cbn.
    repeat split. repeat constructor.
  - rewrite (run_bad_magic app path w img Hf Hl Hm). cbn.
    repeat split. repeat constructor.
Qed.

Lemma magic_mismatch_aborts_witness :
  let img := list_byte_of_string "ANDROID!" ++ sample_image in
  ~ magic_ok img
  /\ r_outcome (run ["unpack_vendor_boot"; "boot.img"]%string
                    (world_with "boot.img" img))
     = Exit EXIT_FAILURE.
Proof.
  cbv zeta.
  assert (H : ~ magic_ok (list_byte_of_string "ANDROID!" ++ sample_image))
    by (unfold magic_ok; vm_compute; discriminate).
  split; [exact H|].
  eapply magic_mismatch_aborts; [reflexivity | exact H].
Defined.

(** C4: a header that declares page size 0 is not rejected: the run
    reaches [ALIGN(VENDOR_HEADER_SIZE, 0)] and divides by zero, with no
    diagnostic printed before. *)
Theorem zero_page_size_divides :
  Hdr.page_size (header_of zero_page_image) = 0
  /\ magic_ok zero_page_image
  /\ run ["unpack_vendor_boot"; "vendor_boot.img"]%string
         (world_with "vendor_boot.img" zero_page_image)
     = Result (Fault DivByZero) (world_with "vendor_boot.img" zero_page_image)
              (log_header "vendor_boot.img").
Proof.
  split; [reflexivity|]. split; [reflexivity|].
  vm_compute. reflexivity.
Qed.

(** C8: the [%s] conversions are not bounded by the arrays. On a valid
    image whose [cmdline] and [name] hold no NUL, the reported command line
    runs through [tags_addr], [name] and into [header_size] (2070 bytes
    from a 2048-byte array), and the reported name runs into [header_size]
    (18 bytes from a 16-byte array). *)
Theorem unterminated_strings_overread :
  let r := run ["unpack_vendor_boot"; "vendor_boot.img"]%string
               (world_with "vendor_boot.img" unterminated_image) in
  let hdr := header_of unterminated_image in
  r_outcome r = Exit EXIT_SUCCESS
  /\ (exists s, In (Report "cmdline" (Terminated s)) (r_log r)
                /\ Z.of_nat (length s) = 2070
                /\ s <> bounded_cstr (Hdr.cmdline hdr) (Z.to_nat VENDOR_BOOT_ARGS_SIZE))
  /\ (exists s, In (Report "product name" (Terminated s)) (r_log r)
                /\ Z.of_nat (length s) = 18
                /\ s <> bounded_cstr (Hdr.name hdr) (Z.to_nat VENDOR_BOOT_NAME_SIZE)).
Proof.
  cbv zeta. split; [vm_compute; reflexivity|]. split.
  - exists (repeat "A"%byte 2048 ++ repeat "001"%byte 4 ++ repeat "B"%byte 16
            ++ ["@"%byte; "008"%byte]).
    split; [|split].
    + vm_compute. do 14 right. left. reflexivity.
    + vm_compute. reflexivity.
    + intros H. apply (f_equal (@length byte)) in H. vm_compute in H. discriminate.
  - exists (repeat "B"%byte 16 ++ ["@"%byte; "008"%byte]).
    split; [|split].
    + vm_compute. do 15 right. left. reflexivity.
    + vm_compute. reflexivity.
    + intros H. apply (f_equal (@length byte)) in H. vm_compute in H. discriminate.
Qed.

(** ** Where the segments are read *)

Section Reads.

Variables (app path : string) (w : world) (img : list byte).
Hypothesis Hfile : files w !! path = Some img.
Hypothesis Hlen : VENDOR_HEADER_SIZE <= Z.of_nat (length img).
Hypothesis Hmagic : magic_ok img.

Abbreviation hdr := (header_of img).
Abbreviation ps := (Hdr.page_size (header_of img)).
Abbreviation rd := (Hdr.vendor_ramdisk_size (header_of img)).
Abbreviation dtb := (Hdr.dtb_size (header_of img)).

Variables a b : Z.
Hypothesis Ha : ALIGN VENDOR_HEADER_SIZE ps = Some a.
Hypothesis Hb : ALIGN rd ps = Some b.

(** Once the ramdisk artifact is written the input path still names a
    file. *)
Lemma input_after_ramdisk :
  exists img1, files (with_file w VENDOR_RAMDISK (segment img a rd)) !! path = Some img1.
Proof.
  unfold with_file. cbn [files].
  destruct (decide (VENDOR_RAMDISK = path)) as [<-|Hne].
  - eexists. apply lookup_insert_eq.
  - exists img. rewrite lookup_insert_ne by exact Hne. exact Hfile.
Qed.

(** The transfers of a run that gets past the header: the header, the
    ramdisk and, unless the run stops before, the dtb. *)
Lemma run_reads :
  let fr := freads (r_log (run [app; path] w)) in
  (fr = [(path, 0, VENDOR_HEADER_SIZE); (path, a, rd)]
   \/ fr = [(path, 0, VENDOR_HEADER_SIZE); (path, a, rd); (path, a + b, dtb)])
  /\ (r_outcome (run [app; path] w) = Exit EXIT_SUCCESS ->
      fr = [(path, 0, VENDOR_HEADER_SIZE); (path, a, rd); (path, a + b, dtb)]).
Proof.
  cbv zeta.
  pose proof (load_u32_range hdr Hdr.OFF_VENDOR_RAMDISK_SIZE) as Hrange_rd.
  pose proof (load_u32_range hdr Hdr.OFF_DTB_SIZE) as Hrange_dtb.
  assert (Hcase : (rd = 0 \/ Z.of_nat (length img) < a + rd)
                  \/ (0 < rd /\ a + rd <= Z.of_nat (length img)))
    by (unfold Hdr.vendor_ramdisk_size in *; lia).
  destruct Hcase as [Hbad | Hrd].
  { rewrite (run_ramdisk_unread app path w img Hfile Hlen Hmagic a Ha Hbad).
    split; [left; reflexivity | discriminate]. }
  destruct (decide (VENDOR_RAMDISK ∈ unwritable w)) as [Hden | Hwr].
  { rewrite (run_ramdisk_denied app path w img Hfile Hlen Hmagic a Ha Hrd Hden).
    split; [left; reflexivity | discriminate]. }
  destruct input_after_ramdisk as [img1 Hfile1].
  assert (Hcase : (dtb = 0 \/ Z.of_nat (length img1) < a + b + dtb)
                  \/ (0 < dtb /\ a + b + dtb <= Z.of_nat (length img1)))
    by (unfold Hdr.dtb_size in *; lia).
  destruct Hcase as [Hbad | Hdtb].
  { rewrite (run_dtb_unread app path w img Hfile Hlen Hmagic a Ha Hrd Hwr b Hb
                            img1 Hfile1 Hbad).
    split; [right; reflexivity | discriminate]. }
  destruct (decide (VENDOR_DTB ∈ unwritable w)) as [Hden | Hwd].
  { rewrite (run_dtb_denied app path w img Hfile Hlen Hmagic a Ha Hrd Hwr b Hb
                            img1 Hfile1 Hdtb Hden).
    split; [right; reflexivity | discriminate]. }
  rewrite (run_success app path w img Hfile Hlen Hmagic a Ha Hrd Hwr b Hb
                       img1 Hfile1 Hdtb Hwd).
  split; [right; reflexivity | reflexivity].
Qed.

(** A run that reports success has written both artifacts whole. *)
Lemma run_success_complete :
  r_outcome (run [app; path] w) = Exit EXIT_SUCCESS ->
  exists R D,
    files (r_world (run [app; path] w)) !! VENDOR_RAMDISK = Some R
    /\ Z.of_nat (length R) = rd
    /\ files (r_world (run [app; path] w)) !! VENDOR_DTB = Some D
    /\ Z.of_nat (length D) = dtb.
Proof.
  pose proof (load_u32_range hdr Hdr.OFF_VENDOR_RAMDISK_SIZE) as Hrange_rd.
  pose proof (load_u32_range hdr Hdr.OFF_DTB_SIZE) as Hrange_dtb.
  assert (Hcase : (rd = 0 \/ Z.of_nat (length img) < a + rd)
                  \/ (0 < rd /\ a + rd <= Z.of_nat (length img)))
    by (unfold Hdr.vendor_ramdisk_size in *; lia).
  destruct Hcase as [Hbad | Hrd].
  { rewrite (run_ramdisk_unread app path w img Hfile Hlen Hmagic a Ha Hbad).
    discriminate. }
  destruct (decide (VENDOR_RAMDISK ∈ unwritable w)) as [Hden | Hwr].
  { rewrite (run_ramdisk_denied app path w img Hfile Hlen Hmagic a Ha Hrd Hden).
    discriminate. }
  destruct input_after_ramdisk as [img1 Hfile1].
  assert (Hcase : (dtb = 0 \/ Z.of_nat (length img1) < a + b + dtb)
                  \/ (0 < dtb /\ a + b + dtb <= Z.of_nat (length img1)))
    by (unfold Hdr.dtb_size in *; lia).
  destruct Hcase as [Hbad | Hdtb].
  { rewrite (run_dtb_unread app path w img Hfile Hlen Hmagic a Ha Hrd Hwr b Hb
                            img1 Hfile1 Hbad).
    discriminate. }
  destruct (decide (VENDOR_DTB ∈ unwritable w)) as [Hden | Hwd].
  { rewrite (run_dtb_denied app path w img Hfile Hlen Hmagic a Ha Hrd Hwr b Hb
                            img1 Hfile1 Hdtb Hden).
    discriminate. }
  rewrite (run_success app path w img Hfile Hlen Hmagic a Ha Hrd Hwr b Hb
                       img1 Hfile1 Hdtb Hwd).
  intros _. cbn [r_world with_file files].
  exists (segment img a rd), (segment img1 (a + b) dtb).
  split; [rewrite lookup_insert_ne by discriminate; apply lookup_insert_eq|].
  split; [exact (length_ramdisk img a Ha Hrd)|].
  split; [apply lookup_insert_eq|].
  exact (length_dtb img a Ha b Hb img1 Hdtb).
Qed.

End Reads.

(** Every run on an existing file starts by reading [VENDOR_HEADER_SIZE]
    bytes at offset 0. *)
Lemma run_reads_header app path w img :
  files w !! path = Some img ->
  head (freads (r_log (run [app; path] w))) = Some (path, 0, VENDOR_HEADER_SIZE).
Proof.
  intros Hfile.
  destruct (Z.lt_ge_cases (Z.of_nat (length img)) VENDOR_HEADER_SIZE) as [Hs|Hlen].
  { rewrite (run_short_header app path w img Hfile Hs). reflexivity. }
  destruct (decide (magic_ok img)) as [Hmagic|Hm].
  2: { rewrite (run_bad_magic app path w img Hfile Hlen Hm). reflexivity. }
  destruct (Z.eq_dec (Hdr.page_size (header_of img)) 0) as [Hz|Hnz].
  { rewrite (run_zero_page app path w img Hfile Hlen Hmagic Hz). reflexivity. }
  destruct (ALIGN_some VENDOR_HEADER_SIZE _ Hnz) as (a & Ha & _).
  destruct (ALIGN_some (Hdr.vendor_ramdisk_size (header_of img)) _ Hnz) as (b & Hb & _).
  destruct (run_reads app path w img Hfile Hlen Hmagic a b Ha Hb) as [[H|H] _];
    rewrite H; reflexivity.
Qed.

(** ** The [header_size] member *)

Section HeaderSize.

Variables (img : list byte) (v : Z).
Hypothesis Hlen : VENDOR_HEADER_SIZE <= Z.of_nat (length img).

Lemma length_le_split n z : length (le_split n z) = n.
Proof. revert z. induction n as [|n IH]; intros z; cbn; [reflexivity|]. now rewrite IH. Qed.

Lemma length_set_header_size : length (set_header_size img v) = length img.
Proof.
  unfold set_header_size.
  rewrite !length_app, length_take, length_drop, length_le_split.
  unfold VENDOR_HEADER_SIZE, Hdr.OFF_HEADER_SIZE in *. lia.
Qed.

(** Only the four bytes at [OFF_HEADER_SIZE] change. *)
Lemma set_header_size_lookup (i : nat) :
  Z.of_nat i < Hdr.OFF_HEADER_SIZE \/ Hdr.OFF_HEADER_SIZE + 4 <= Z.of_nat i ->
  set_header_size img v !! i = img !! i.
Proof.
  unfold set_header_size, VENDOR_HEADER_SIZE, Hdr.OFF_HEADER_SIZE in *.
  intros [Hlo | Hhi].
  - rewrite lookup_app_l by (rewrite length_take; lia).
    rewrite lookup_take. destruct (decide (i < Z.to_nat 2096)%nat); [reflexivity | lia].
  - rewrite lookup_app_r by (rewrite length_take; lia).
    rewrite lookup_app_r by (rewrite length_take, length_le_split; lia).
    rewrite lookup_drop, length_take, length_le_split. f_equal. lia.
Qed.

Lemma segment_ext (l l' : list byte) (off n : nat) :
  (forall i, (off <= i < off + n)%nat -> l !! i = l' !! i) ->
  take n (drop off l) = take n (drop off l').
Proof.
  intros H. apply list_eq. intros i.
  rewrite !lookup_take. destruct (decide (i < n)%nat); [|reflexivity].
  rewrite !lookup_drop. apply H. lia.
Qed.

(** A member that does not overlap [header_size] reads the same. *)
Lemma load_u32_set_header_size (off : Z) :
  0 <= off ->
  off + 4 <= Hdr.OFF_HEADER_SIZE \/ Hdr.OFF_HEADER_SIZE + 4 <= off ->
  load_u32 (header_of (set_header_size img v)) off = load_u32 (header_of img) off.
Proof.
  intros Hoff Hsep. unfold load_u32. f_equal. apply segment_ext.
  intros i Hi. unfold header_of. rewrite !lookup_take.
  destruct (decide (i < Z.to_nat VENDOR_HEADER_SIZE)%nat); [|reflexivity].
  apply set_header_size_lookup. lia.
Qed.

Lemma magic_ok_set_header_size : magic_ok img -> magic_ok (set_header_size img v).
Proof.
  unfold magic_ok. intros <-.
  change (Z.to_nat VENDOR_BOOT_MAGIC_SIZE) with 8%nat.
  change (take 8 (drop 0 (set_header_size img v)) = take 8 (drop 0 img)).
  apply segment_ext. intros i Hi.
  apply set_header_size_lookup. unfold Hdr.OFF_HEADER_SIZE. lia.
Qed.

End HeaderSize.

(** C2: in every run that gets past the header, the ramdisk is read at
    offset ALIGN(2112, page_size) with length vendor_ramdisk_size and the
    dtb, when the run gets to it, at that offset plus
    ALIGN(vendor_ramdisk_size, page_size) with length dtb_size; a run that
    succeeds has read both. Whatever value the header's own header_size
    member holds, the reads stay at these offsets. *)
Theorem segment_offsets (app path : string) (w : world) (img : list byte) (a b : Z) :
  files w !! path = Some img ->
  VENDOR_HEADER_SIZE <= Z.of_nat (length img) ->
  magic_ok img ->
  ALIGN VENDOR_HEADER_SIZE (Hdr.page_size (header_of img)) = Some a ->
  ALIGN (Hdr.vendor_ramdisk_size (header_of img)) (Hdr.page_size (header_of img))
  = Some b ->
  let rd := Hdr.vendor_ramdisk_size (header_of img) in
  let dtb := Hdr.dtb_size (header_of img) in
  let short := [(path, 0, VENDOR_HEADER_SIZE); (path, a, rd)] in
  let full := [(path, 0, VENDOR_HEADER_SIZE); (path, a, rd); (path, a + b, dtb)] in
  forall v : Z,
    let r := run [app; path] w in
    let r' := run [app; path] (with_file w path (set_header_size img v)) in
    (freads (r_log r) = short \/ freads (r_log r) = full)
    /\ (r_outcome r = Exit EXIT_SUCCESS -> freads (r_log r) = full)
    /\ (freads (r_log r') = short \/ freads (r_log r') = full)
    /\ (r_outcome r' = Exit EXIT_SUCCESS -> freads (r_log r') = full).
Proof.
  intros Hfile Hlen Hmagic Ha Hb rd dtb short full v r r'.
  pose proof (run_reads app path w img Hfile Hlen Hmagic a b Ha Hb) as [H1 H2].
  split; [exact H1|]. split; [exact H2|].
  assert (Hps : Hdr.page_size (header_of (set_header_size img v))
                = Hdr.page_size (header_of img))
    by (apply load_u32_set_header_size;
        [exact Hlen | unfold Hdr.OFF_PAGE_SIZE; lia
         | unfold Hdr.OFF_PAGE_SIZE, Hdr.OFF_HEADER_SIZE; lia]).
  assert (Hrs : Hdr.vendor_ramdisk_size (header_of (set_header_size img v)) = rd)
    by (apply load_u32_set_header_size;
        [exact Hlen | unfold Hdr.OFF_VENDOR_RAMDISK_SIZE; lia
         | unfold Hdr.OFF_VENDOR_RAMDISK_SIZE, Hdr.OFF_HEADER_SIZE; lia]).
  assert (Hds : Hdr.dtb_size (header_of (set_header_size img v)) = dtb)
    by (apply load_u32_set_header_size;
        [exact Hlen | unfold Hdr.OFF_DTB_SIZE; lia
         | unfold Hdr.OFF_DTB_SIZE, Hdr.OFF_HEADER_SIZE; lia]).
  assert (Hfile' : files (with_file w path (set_header_size img v)) !! path
                   = Some (set_header_size img v))
    by apply lookup_insert_eq.
  assert (Hlen' : VENDOR_HEADER_SIZE <= Z.of_nat (length (set_header_size img v)))
    by (rewrite length_set_header_size by exact Hlen; exact Hlen).
  pose proof (magic_ok_set_header_size img v Hlen Hmagic) as Hmagic'.
  pose proof (run_reads app path _ _ Hfile' Hlen' Hmagic' a b) as Hr.
  rewrite Hps, Hrs, Hds in Hr. exact (Hr Ha Hb).
Qed.

Lemma segment_offsets_witness :
  let w := world_with "vendor_boot.img" sample_image in
  files w !! "vendor_boot.img"%string = Some sample_image
  /\ VENDOR_HEADER_SIZE <= Z.of_nat (length sample_image)
  /\ magic_ok sample_image
  /\ ALIGN VENDOR_HEADER_SIZE (Hdr.page_size (header_of sample_image)) = Some 4096
  /\ ALIGN (Hdr.vendor_ramdisk_size (header_of sample_image))
           (Hdr.page_size (header_of sample_image)) = Some 4096
  /\ freads (r_log (run ["unpack_vendor_boot"; "vendor_boot.img"]%string
                        (with_file w "vendor_boot.img"
                                   (set_header_size sample_image 0))))
     = [("vendor_boot.img"%string, 0, VENDOR_HEADER_SIZE);
        ("vendor_boot.img"%string, 4096, Hdr.vendor_ramdisk_size (header_of sample_image));
        ("vendor_boot.img"%string, 4096 + 4096, Hdr.dtb_size (header_of sample_image))].
Proof.
  cbv zeta.
  assert (H1 : files (world_with "vendor_boot.img" sample_image) !! "vendor_boot.img"%string
               = Some sample_image) by reflexivity.
  assert (H2 : VENDOR_HEADER_SIZE <= Z.of_nat (length sample_image))
    by (vm_compute; discriminate).
  assert (H3 : magic_ok sample_image) by reflexivity.
  assert (H4 : ALIGN VENDOR_HEADER_SIZE (Hdr.page_size (header_of sample_image))
               = Some 4096) by reflexivity.
  assert (H5 : ALIGN (Hdr.vendor_ramdisk_size (header_of sample_image))
                     (Hdr.page_size (header_of sample_image)) = Some 4096)
    by reflexivity.
  repeat (split; [assumption|]).
  apply (segment_offsets "unpack_vendor_boot" "vendor_boot.img" _ sample_image
                         4096 4096 H1 H2 H3 H4 H5 0).
  vm_compute. reflexivity.
Defined.

(** ** The header object and the constant *)

(** C10: under every ABI that aligns [uint32_t] to 1, 2 or 4 bytes and
    [uint64_t] to 1, 2, 4 or 8, [struct vendor_boot_img_hdr] takes exactly
    [VENDOR_HEADER_SIZE] = 2112 bytes with no padding between or after its
    members; [sizeof(hdr)] is that constant, every run reads that many
    bytes at offset 0 as its first transfer, and the next one starts at
    [ALIGN(VENDOR_HEADER_SIZE, page_size)]. *)
Theorem header_is_2112_bytes (abi : Layout.abi) :
  Layout.natural abi ->
  Layout.struct_size abi Layout.vendor_boot_img_hdr = VENDOR_HEADER_SIZE
  /\ Layout.no_padding abi Layout.vendor_boot_img_hdr = true
  /\ VENDOR_HEADER_SIZE = 2112
  /\ sizeof_hdr = VENDOR_HEADER_SIZE
  /\ (forall app path w img,
        files w !! path = Some img ->
        freads (r_log (run [app; path] w)) !! 0%nat = Some (path, 0, sizeof_hdr))
  /\ (forall app path w img a b,
        files w !! path = Some img ->
        VENDOR_HEADER_SIZE <= Z.of_nat (length img) ->
        magic_ok img ->
        ALIGN VENDOR_HEADER_SIZE (Hdr.page_size (header_of img)) = Some a ->
        ALIGN (Hdr.vendor_ramdisk_size (header_of img))
              (Hdr.page_size (header_of img)) = Some b ->
        freads (r_log (run [app; path] w)) !! 1%nat
        = Some (path, a, Hdr.vendor_ramdisk_size (header_of img))).
Proof.
  intros [H32 H64].
  assert (Hlayout :
    Layout.struct_size abi Layout.vendor_boot_img_hdr = VENDOR_HEADER_SIZE
    /\ Layout.no_padding abi Layout.vendor_boot_img_hdr = true).
  { destruct abi as [a32 a64]. cbn [Layout.align_u32 Layout.align_u64] in *.
    cbn [In] in H32, H64.
    destruct H32 as [<-|[<-|[<-|[]]]];
      destruct H64 as [<-|[<-|[<-|[<-|[]]]]];
      split; reflexivity. }
  destruct Hlayout as [Hsize Hpad].
  repeat split; try assumption; try reflexivity.
  - intros app path w img Hfile.
    pose proof (run_reads_header app path w img Hfile) as H.
    destruct (freads (r_log (run [app; path] w))); [discriminate|exact H].
  - intros app path w img a b Hfile Hlen Hmagic Ha Hb.
    destruct (run_reads app path w img Hfile Hlen Hmagic a b Ha Hb) as [[H|H] _];
      rewrite H; reflexivity.
Qed.

Lemma header_is_2112_bytes_witness :
  Layout.natural Layout.lp64
  /\ Layout.struct_size Layout.lp64 Layout.vendor_boot_img_hdr = VENDOR_HEADER_SIZE
  /\ Layout.natural Layout.ilp32_sysv
  /\ Layout.struct_size Layout.ilp32_sysv Layout.vendor_boot_img_hdr = VENDOR_HEADER_SIZE.
Proof.
  assert (H1 : Layout.natural Layout.lp64) by (split; cbn; tauto).
  assert (H2 : Layout.natural Layout.ilp32_sysv) by (split; cbn; tauto).
  split; [exact H1|]. split; [apply (header_is_2112_bytes Layout.lp64 H1)|].
  split; [exact H2|]. apply (header_is_2112_bytes Layout.ilp32_sysv H2).
Defined.

(** ** Truncated and empty segments *)

(** C6: when a declared segment size exceeds the bytes left in the stream
    at the segment's offset, the run ends with the failure status after
    reporting a read error at end of file, and the artifact of that segment
    is neither created nor written: for the ramdisk the file system is left
    as it was; for the dtb, read from an operand other than the ramdisk
    artifact's path, it holds the ramdisk artifact and nothing else new. A
    run that ends with the success status has written both artifacts with
    exactly their declared numbers of bytes. *)
Theorem truncated_segment_fails (app path : string) (w : world) (img : list byte)
        (a : Z) :
  files w !! path = Some img ->
  VENDOR_HEADER_SIZE <= Z.of_nat (length img) ->
  magic_ok img ->
  ALIGN VENDOR_HEADER_SIZE (Hdr.page_size (header_of img)) = Some a ->
  let rd := Hdr.vendor_ramdisk_size (header_of img) in
  let dtb := Hdr.dtb_size (header_of img) in
  let r := run [app; path] w in
  (remaining img a < rd ->
   r_outcome r = Exit EXIT_FAILURE
   /\ In (Diag (ErrRead true)) (r_log r)
   /\ Forall (fun e => touches_output e = false) (r_log r)
   /\ r_world r = w)
  /\ (forall b,
        path <> VENDOR_RAMDISK ->
        0 < rd /\ a + rd <= Z.of_nat (length img) ->
        VENDOR_RAMDISK ∉ unwritable w ->
        ALIGN rd (Hdr.page_size (header_of img)) = Some b ->
        remaining img (a + b) < dtb ->
        r_outcome r = Exit EXIT_FAILURE
        /\ In (Diag (ErrRead true)) (r_log r)
        /\ ~ In (Fopen VENDOR_DTB "w") (r_log r)
        /\ (forall n, ~ In (Fwrite VENDOR_DTB n) (r_log r))
        /\ r_world r = with_file w VENDOR_RAMDISK (segment img a rd)
        /\ files (r_world r) !! VENDOR_DTB = files w !! VENDOR_DTB)
  /\ (r_outcome r = Exit EXIT_SUCCESS ->
      exists R D,
        files (r_world r) !! VENDOR_RAMDISK = Some R /\ Z.of_nat (length R) = rd
        /\ files (r_world r) !! VENDOR_DTB = Some D /\ Z.of_nat (length D) = dtb).
Proof.
  intros Hfile Hlen Hmagic Ha rd dtb r. subst r.
  pose proof (ALIGN_range _ _ _ Ha) as Hra.
  split; [|split].
  3: { destruct (ALIGN_some rd _ (ALIGN_nonzero _ _ _ Ha)) as (b & Hb & _).
       exact (run_success_complete app path w img Hfile Hlen Hmagic a b Ha Hb). }
  - intros Hrem. unfold remaining in Hrem.
    assert (Hnz : (rd =? 0) = false) by (apply Z.eqb_neq; lia).
    rewrite (run_ramdisk_unread app path w img Hfile Hlen Hmagic a Ha)
      by (right; lia).
    fold rd. rewrite Hnz. cbn.
    repeat split.
    + do 6 right. left. reflexivity.
    + repeat constructor.
  - intros b Hpath Hrd Hwr Hb Hrem. unfold remaining in Hrem.
    pose proof (ALIGN_range _ _ _ Hb) as Hrb.
    assert (Hnz : (dtb =? 0) = false) by (apply Z.eqb_neq; lia).
    assert (Hfile1 : files (with_file w VENDOR_RAMDISK (segment img a rd)) !! path
                     = Some img)
      by (unfold with_file; cbn [files];
          rewrite lookup_insert_ne by congruence; exact Hfile).
    rewrite (run_dtb_unread app path w img Hfile Hlen Hmagic a Ha Hrd Hwr b Hb
                            img Hfile1)
      by (right; fold dtb; lia).
    fold rd dtb. rewrite Hnz. cbn.
    repeat split.
    + do 12 right. left. reflexivity.
    + intros H. repeat destruct H as [H|H]; try discriminate H. exact H.
    + intros n H. repeat destruct H as [H|H]; try discriminate H. exact H.
    + apply lookup_insert_ne. discriminate.
Qed.

Lemma truncated_segment_fails_witness :
  let w := world_with "vendor_boot.img" cut_ramdisk_image in
  let w' := world_with "vendor_boot.img" cut_dtb_image in
  (remaining cut_ramdisk_image 4096
   < Hdr.vendor_ramdisk_size (header_of cut_ramdisk_image)
   /\ r_outcome (run ["unpack_vendor_boot"; "vendor_boot.img"]%string w)
      = Exit EXIT_FAILURE)
  /\ ("vendor_boot.img"%string <> VENDOR_RAMDISK
      /\ remaining cut_dtb_image (4096 + 4096) < Hdr.dtb_size (header_of cut_dtb_image)
      /\ r_outcome (run ["unpack_vendor_boot"; "vendor_boot.img"]%string w')
         = Exit EXIT_FAILURE).
Proof.
  cbv zeta. split.
  - assert (H1 : files (world_with "vendor_boot.img" cut_ramdisk_image)
                 !! "vendor_boot.img"%string = Some cut_ramdisk_image)
      by apply lookup_singleton_eq.
    assert (H2 : VENDOR_HEADER_SIZE <= Z.of_nat (length cut_ramdisk_image))
      by (vm_compute; discriminate).
    assert (H3 : magic_ok cut_ramdisk_image) by (vm_compute; reflexivity).
    assert (H4 : ALIGN VENDOR_HEADER_SIZE (Hdr.page_size (header_of cut_ramdisk_image))
                 = Some 4096) by (vm_compute; reflexivity).
    assert (H5 : remaining cut_ramdisk_image 4096
                 < Hdr.vendor_ramdisk_size (header_of cut_ramdisk_image))
      by (vm_compute; reflexivity).
    split; [exact H5|].
    pose proof (truncated_segment_fails "unpack_vendor_boot" "vendor_boot.img"
                  (world_with "vendor_boot.img" cut_ramdisk_image) cut_ramdisk_image
                  4096 H1 H2 H3 H4) as H.
    cbv zeta in H. destruct H as (H & _ & _). destruct (H H5) as [Hout _]. exact Hout.
  - assert (H1 : files (world_with "vendor_boot.img" cut_dtb_image)
                 !! "vendor_boot.img"%string = Some cut_dtb_image)
      by apply lookup_singleton_eq.
    assert (H2 : VENDOR_HEADER_SIZE <= Z.of_nat (length cut_dtb_image))
      by (vm_compute; discriminate).
    assert (H3 : magic_ok cut_dtb_image) by (vm_compute; reflexivity).
    assert (H4 : ALIGN VENDOR_HEADER_SIZE (Hdr.page_size (header_of cut_dtb_image))
                 = Some 4096) by (vm_compute; reflexivity).
    assert (H5 : remaining cut_dtb_image (4096 + 4096)
                 < Hdr.dtb_size (header_of cut_dtb_image))
      by (vm_compute; reflexivity).
    assert (H6 : 0 < Hdr.vendor_ramdisk_size (header_of cut_dtb_image)
                 /\ 4096 + Hdr.vendor_ramdisk_size (header_of cut_dtb_image)
                    <= Z.of_nat (length cut_dtb_image))
      by (split; vm_compute; [reflexivity | discriminate]).
    assert (H7 : VENDOR_RAMDISK ∉ unwritable (world_with "vendor_boot.img" cut_dtb_image))
      by apply not_elem_of_empty.
    assert (H8 : ALIGN (Hdr.vendor_ramdisk_size (header_of cut_dtb_image))
                       (Hdr.page_size (header_of cut_dtb_image)) = Some 4096)
      by (vm_compute; reflexivity).
    assert (H9 : "vendor_boot.img"%string <> VENDOR_RAMDISK) by discriminate.
    split; [exact H9|]. split; [exact H5|].
    pose proof (truncated_segment_fails "unpack_vendor_boot" "vendor_boot.img"
                  (world_with "vendor_boot.img" cut_dtb_image) cut_dtb_image
                  4096 H1 H2 H3 H4) as H.
    cbv zeta in H. destruct H as (_ & H & _).
    destruct (H 4096 H9 H6 H7 H8 H5) as [Hout _]. exact Hout.
Defined.

(** C7, as stated, fails: on an image that is in order except that it
    declares an empty ramdisk, [fread] of a zero-size item returns 0,
    [file_read] takes that for an error, and the run ends with the failure
    status with no ramdisk artifact at all. *)
Lemma empty_ramdisk_rejected :
  let w := world_with "vendor_boot.img" empty_ramdisk_image in
  let r := run ["unpack_vendor_boot"; "vendor_boot.img"]%string w in
  magic_ok empty_ramdisk_image
  /\ Hdr.page_size (header_of empty_ramdisk_image) = 4096
  /\ Hdr.vendor_ramdisk_size (header_of empty_ramdisk_image) = 0
  /\ r_outcome r = Exit EXIT_FAILURE
  /\ files (r_world r) !! VENDOR_RAMDISK = None
  /\ In (Diag (ErrRead false)) (r_log r).
Proof.
  cbv zeta.
  do 5 (split; [vm_compute; reflexivity|]).
  vm_compute. do 6 right. left. reflexivity.
Qed.

(** C7 (amended): on an otherwise valid input whose declared ramdisk or dtb
    size is 0 the run does not crash; the zero-length read is reported as a
    read error (not at end of file), the run ends with the failure status,
    and no artifact is created for that segment. *)
Theorem empty_segment_rejected (app path : string) (w : world) (img : list byte)
        (a : Z) :
  files w !! path = Some img ->
  VENDOR_HEADER_SIZE <= Z.of_nat (length img) ->
  magic_ok img ->
  ALIGN VENDOR_HEADER_SIZE (Hdr.page_size (header_of img)) = Some a ->
  let rd := Hdr.vendor_ramdisk_size (header_of img) in
  let dtb := Hdr.dtb_size (header_of img) in
  let r := run [app; path] w in
  (rd = 0 ->
   r_outcome r = Exit EXIT_FAILURE
   /\ In (Diag (ErrRead false)) (r_log r)
   /\ Forall (fun e => touches_output e = false) (r_log r)
   /\ r_world r = w)
  /\ (forall b img1,
        0 < rd /\ a + rd <= Z.of_nat (length img) ->
        VENDOR_RAMDISK ∉ unwritable w ->
        ALIGN rd (Hdr.page_size (header_of img)) = Some b ->
        files (with_file w VENDOR_RAMDISK (segment img a rd)) !! path = Some img1 ->
        dtb = 0 ->
        r_outcome r = Exit EXIT_FAILURE
        /\ In (Diag (ErrRead false)) (r_log r)
        /\ ~ In (Fopen VENDOR_DTB "w") (r_log r)
        /\ r_world r = with_file w VENDOR_RAMDISK (segment img a rd)
        /\ files (r_world r) !! VENDOR_DTB = files w !! VENDOR_DTB).
Proof.
  intros Hfile Hlen Hmagic Ha rd dtb r. subst r.
  split.
  - intros Hz.
    rewrite (run_ramdisk_unread app path w img Hfile Hlen Hmagic a Ha)
      by (left; exact Hz).
    fold rd. rewrite Hz. cbn.
    repeat split.
    + do 6 right. left. reflexivity.
    + repeat constructor.
  - intros b img1 Hrd Hwr Hb Hfile1 Hz.
    rewrite (run_dtb_unread app path w img Hfile Hlen Hmagic a Ha Hrd Hwr b Hb
                            img1 Hfile1)
      by (left; exact Hz).
    fold rd dtb. rewrite Hz. cbn.
    repeat split.
    + do 12 right. left. reflexivity.
    + intros H. repeat destruct H as [H|H]; try discriminate H. exact H.
    + apply lookup_insert_ne. discriminate.
Qed.

Lemma empty_segment_rejected_witness :
  let w := world_with "vendor_boot.img" empty_ramdisk_image in
  Hdr.vendor_ramdisk_size (header_of empty_ramdisk_image) = 0
  /\ r_outcome (run ["unpack_vendor_boot"; "vendor_boot.img"]%string w)
     = Exit EXIT_FAILURE
  /\ r_world (run ["unpack_vendor_boot"; "vendor_boot.img"]%string w) = w.
Proof.
  cbv zeta.
  assert (H1 : files (world_with "vendor_boot.img" empty_ramdisk_image)
               !! "vendor_boot.img"%string = Some empty_ramdisk_image)
    by apply lookup_singleton_eq.
  assert (H2 : VENDOR_HEADER_SIZE <= Z.of_nat (length empty_ramdisk_image))
    by (vm_compute; discriminate).
  assert (H3 : magic_ok empty_ramdisk_image) by (vm_compute; reflexivity).
  assert (H4 : ALIGN VENDOR_HEADER_SIZE (Hdr.page_size (header_of empty_ramdisk_image))
               = Some 4096) by (vm_compute; reflexivity).
  assert (H5 : Hdr.vendor_ramdisk_size (header_of empty_ramdisk_image) = 0)
    by (vm_compute; reflexivity).
  split; [exact H5|].
  pose proof (empty_segment_rejected "unpack_vendor_boot" "vendor_boot.img"
                (world_with "vendor_boot.img" empty_ramdisk_image) empty_ramdisk_image
                4096 H1 H2 H3 H4) as H.
  cbv zeta in H. destruct H as [H _].
  destruct (H H5) as (Hout & _ & _ & Hw). split; [exact Hout | exact Hw].
Defined.

(** ** Round trip *)

Lemma build_image_well_formed hdr page_size fill ramdisk dtb :
  0 < page_size ->
  well_formed_image hdr page_size ramdisk dtb
                    (build_image hdr page_size fill ramdisk dtb).
Proof.
  intros Hp.
  exists (padding (Z.of_nat (length hdr)) page_size fill),
         (padding (Z.of_nat (length ramdisk)) page_size fill), [].
  unfold padding. rewrite !repeat_length.
  pose proof (page_align_ge (Z.of_nat (length hdr)) page_size Hp).
  pose proof (page_align_ge (Z.of_nat (length ramdisk)) page_size Hp).
  split; [lia|]. split; [lia|].
  unfold build_image, padding. rewrite app_nil_r. reflexivity.
Qed.

Section RoundTrip.

Variables (h R D pad1 pad2 rest : list byte).

Abbreviation image := (h ++ pad1 ++ R ++ pad2 ++ D ++ rest).

Hypothesis Hh : Z.of_nat (length h) = VENDOR_HEADER_SIZE.

Lemma header_of_image : header_of image = h.
Proof. unfold header_of. apply take_app_length'. lia. Qed.

Lemma magic_ok_image : magic_ok h -> magic_ok image.
Proof.
  unfold magic_ok. intros <-. apply take_app_le.
  unfold VENDOR_BOOT_MAGIC_SIZE, VENDOR_HEADER_SIZE in *. lia.
Qed.

Lemma ramdisk_of_image a :
  Z.of_nat (length pad1) = a - Z.of_nat (length h) ->
  segment image a (Z.of_nat (length R)) = R.
Proof.
  intros Hp. unfold segment.
  rewrite (app_assoc h pad1).
  rewrite drop_app_length' by (rewrite length_app; lia).
  apply take_app_length'. lia.
Qed.

Lemma dtb_of_image a b :
  Z.of_nat (length pad1) = a - Z.of_nat (length h) ->
  Z.of_nat (length pad2) = b - Z.of_nat (length R) ->
  segment image (a + b) (Z.of_nat (length D)) = D.
Proof.
  intros Hp1 Hp2. unfold segment.
  replace image with ((h ++ pad1 ++ R ++ pad2) ++ D ++ rest)
    by (now rewrite <- !app_assoc).
  rewrite drop_app_length' by (rewrite !length_app; lia).
  apply take_app_length'. lia.
Qed.

End RoundTrip.

(** C1, as stated, fails: a well-formed image whose dtb is declared empty
    (valid magic, page size 4096, a 10-byte ramdisk) is not extracted; the
    run ends with the failure status and with no dtb artifact. *)
Lemma empty_dtb_not_extracted :
  let h := encode_hdr (with_sizes 4096 10 0) in
  let w := world_with "vendor_boot.img" empty_dtb_image in
  let r := run ["unpack_vendor_boot"; "vendor_boot.img"]%string w in
  Z.of_nat (length h) = VENDOR_HEADER_SIZE
  /\ magic_ok h
  /\ Hdr.page_size h = 4096
  /\ Hdr.vendor_ramdisk_size h = Z.of_nat (length sample_ramdisk)
  /\ Hdr.dtb_size h = Z.of_nat (length (@nil byte))
  /\ well_formed_image h 4096 sample_ramdisk [] empty_dtb_image
  /\ r_outcome r = Exit EXIT_FAILURE
  /\ files (r_world r) !! VENDOR_DTB = None.
Proof.
  cbv zeta.
  do 5 (split; [vm_compute; reflexivity|]).
  split; [apply build_image_well_formed; lia|].
  split; vm_compute; reflexivity.
Qed.

(** C1 (amended): for every well-formed image (a 2112-byte header with the
    magic, a nonzero page size and the sizes of R and D, then padding to the
    page boundary, R, padding to the page boundary, D) in which R and D are
    not empty and 2112 + page_size - 1 and |R| + page_size - 1 fit 32 bits,
    read from a path other than the ramdisk artifact's, with both artifacts
    writable, the run succeeds and the artifacts hold R and D byte for
    byte. *)
Theorem roundtrip (app path : string) (w : world) (h R D img : list byte) :
  Z.of_nat (length h) = VENDOR_HEADER_SIZE ->
  magic_ok h ->
  Hdr.page_size h <> 0 ->
  Hdr.vendor_ramdisk_size h = Z.of_nat (length R) ->
  Hdr.dtb_size h = Z.of_nat (length D) ->
  well_formed_image h (Hdr.page_size h) R D img ->
  R <> [] -> D <> [] ->
  VENDOR_HEADER_SIZE + Hdr.page_size h - 1 < UINT32_MOD ->
  Z.of_nat (length R) + Hdr.page_size h - 1 < UINT32_MOD ->
  files w !! path = Some img ->
  path <> VENDOR_RAMDISK ->
  VENDOR_RAMDISK ∉ unwritable w ->
  VENDOR_DTB ∉ unwritable w ->
  let r := run [app; path] w in
  r_outcome r = Exit EXIT_SUCCESS
  /\ files (r_world r) !! VENDOR_RAMDISK = Some R
  /\ files (r_world r) !! VENDOR_DTB = Some D.
Proof.
  intros Hh Hmagic Hps Hrd Hdtb (pad1 & pad2 & rest & Hp1 & Hp2 & ->)
         HR HD Hfit1 Hfit2 Hfile Hpath Hwr Hwd r. subst r.
  pose proof (load_u32_range h Hdr.OFF_PAGE_SIZE) as Hpr.
  fold (Hdr.page_size h) in Hpr.
  assert (Hpos : 0 < Hdr.page_size h) by lia.
  assert (HRpos : 0 < Z.of_nat (length R)) by (destruct R; [contradiction | cbn; lia]).
  assert (HDpos : 0 < Z.of_nat (length D)) by (destruct D; [contradiction | cbn; lia]).
  set (img := h ++ pad1 ++ R ++ pad2 ++ D ++ rest) in *.
  set (a := page_align VENDOR_HEADER_SIZE (Hdr.page_size h)).
  set (b := page_align (Z.of_nat (length R)) (Hdr.page_size h)).
  rewrite Hh in Hp1. fold a in Hp1. fold b in Hp2.
  assert (Hhdr : header_of img = h) by (apply header_of_image; exact Hh).
  assert (Hlen : VENDOR_HEADER_SIZE <= Z.of_nat (length img))
    by (unfold img; rewrite length_app; lia).
  assert (Hm : magic_ok img) by (apply magic_ok_image; assumption).
  assert (Ha : ALIGN VENDOR_HEADER_SIZE (Hdr.page_size (header_of img)) = Some a)
    by (rewrite Hhdr; apply ALIGN_page_align;
        [unfold VENDOR_HEADER_SIZE; lia | lia | exact Hfit1]).
  assert (Hb : ALIGN (Hdr.vendor_ramdisk_size (header_of img))
                     (Hdr.page_size (header_of img)) = Some b)
    by (rewrite Hhdr, Hrd; apply ALIGN_page_align; [lia | lia | exact Hfit2]).
  assert (HsegR : segment img a (Hdr.vendor_ramdisk_size (header_of img)) = R)
    by (rewrite Hhdr, Hrd; apply ramdisk_of_image; lia).
  assert (HsegD : segment img (a + b) (Hdr.dtb_size (header_of img)) = D)
    by (rewrite Hhdr, Hdtb; apply dtb_of_image; lia).
  assert (Hlen_img : Z.of_nat (length img)
                     = a + b + Z.of_nat (length D) + Z.of_nat (length rest))
    by (unfold img; rewrite !length_app; lia).
  assert (Hrd' : 0 < Hdr.vendor_ramdisk_size (header_of img)
                 /\ a + Hdr.vendor_ramdisk_size (header_of img)
                    <= Z.of_nat (length img))
    by (rewrite Hhdr, Hrd; lia).
  assert (Hfile1 : files (with_file w VENDOR_RAMDISK
                            (segment img a (Hdr.vendor_ramdisk_size (header_of img))))
                   !! path = Some img)
    by (unfold with_file; cbn [files];
        rewrite lookup_insert_ne by congruence; exact Hfile).
  assert (Hdtb' : 0 < Hdr.dtb_size (header_of img)
                  /\ a + b + Hdr.dtb_size (header_of img) <= Z.of_nat (length img))
    by (rewrite Hhdr, Hdtb; lia).
  rewrite (run_success app path w img Hfile Hlen Hm a Ha Hrd' Hwr b Hb img Hfile1
                       Hdtb' Hwd).
  rewrite HsegR, HsegD. cbn [r_outcome r_world with_file files].
  split; [reflexivity|]. split.
  - rewrite lookup_insert_ne by discriminate. apply lookup_insert_eq.
  - apply lookup_insert_eq.
Qed.

Lemma roundtrip_witness :
  let h := encode_hdr sample_fields in
  let w := world_with "vendor_boot.img" sample_image in
  let r := run ["unpack_vendor_boot"; "vendor_boot.img"]%string w in
  well_formed_image h (Hdr.page_size h) sample_ramdisk sample_dtb sample_image
  /\ r_outcome r = Exit EXIT_SUCCESS
  /\ files (r_world r) !! VENDOR_RAMDISK = Some sample_ramdisk
  /\ files (r_world r) !! VENDOR_DTB = Some sample_dtb.
Proof.
  cbv zeta.
  assert (H1 : Z.of_nat (length (encode_hdr sample_fields)) = VENDOR_HEADER_SIZE)
    by (vm_compute; reflexivity).
  assert (H2 : magic_ok (encode_hdr sample_fields)) by (vm_compute; reflexivity).
  assert (Hps : Hdr.page_size (encode_hdr sample_fields) = 4096)
    by (vm_compute; reflexivity).
  assert (H3 : Hdr.page_size (encode_hdr sample_fields) <> 0)
    by (rewrite Hps; discriminate).
  assert (H4 : Hdr.vendor_ramdisk_size (encode_hdr sample_fields)
               = Z.of_nat (length sample_ramdisk)) by (vm_compute; reflexivity).
  assert (H5 : Hdr.dtb_size (encode_hdr sample_fields)
               = Z.of_nat (length sample_dtb)) by (vm_compute; reflexivity).
  assert (H6 : well_formed_image (encode_hdr sample_fields)
                 (Hdr.page_size (encode_hdr sample_fields))
                 sample_ramdisk sample_dtb sample_image)
    by (rewrite Hps; apply build_image_well_formed; lia).
  assert (H7 : sample_ramdisk <> []) by discriminate.
  assert (H8 : sample_dtb <> []) by discriminate.
  assert (H9 : VENDOR_HEADER_SIZE + Hdr.page_size (encode_hdr sample_fields) - 1
               < UINT32_MOD) by (rewrite Hps; reflexivity).
  assert (H10 : Z.of_nat (length sample_ramdisk)
                + Hdr.page_size (encode_hdr sample_fields) - 1 < UINT32_MOD)
    by (rewrite Hps; reflexivity).
  assert (H11 : files (world_with "vendor_boot.img" sample_image)
                !! "vendor_boot.img"%string = Some sample_image)
    by apply lookup_singleton_eq.
  assert (H12 : "vendor_boot.img"%string <> VENDOR_RAMDISK) by discriminate.
  assert (H13 : VENDOR_RAMDISK ∉ unwritable (world_with "vendor_boot.img" sample_image))
    by apply not_elem_of_empty.
  assert (H14 : VENDOR_DTB ∉ unwritable (world_with "vendor_boot.img" sample_image))
    by apply not_elem_of_empty.
  split; [exact H6|].
  exact (roundtrip "unpack_vendor_boot" "vendor_boot.img"
                   (world_with "vendor_boot.img" sample_image)
                   (encode_hdr sample_fields) sample_ramdisk sample_dtb sample_image
                   H1 H2 H3 H4 H5 H6 H7 H8 H9 H10 H11 H12 H13 H14).
Defined.

(** ** What a [%s] conversion reads *)

Section Scan.

Lemma cscan_examined_cons c r :
  cscan_examined (cscan_cons c r) = cscan_examined r + 1.
Proof. destruct r; cbn [cscan_cons cscan_examined length]; lia. Qed.

Lemma cscan_examined_nonneg mem : 0 <= cscan_examined (scan_cstr mem).
Proof.
  induction mem as [|c rest IH]; cbn [scan_cstr].
  - cbn. lia.
  - destruct (Byte.eqb c x00); [cbn; lia|]. rewrite cscan_examined_cons. lia.
Qed.

(** With a NUL inside the bound, the scan of [main] is the bounded scan
    and stays inside the bound. *)
Lemma scan_cstr_terminated mem : forall n i,
  (i < n)%nat -> mem !! i = Some x00 ->
  scan_cstr mem = Terminated (bounded_cstr mem n)
  /\ cscan_examined (scan_cstr mem) <= Z.of_nat n.
Proof.
  induction mem as [|c rest IH]; intros n i Hi Hnul; [discriminate|].
  destruct n as [|n]; [lia|].
  unfold bounded_cstr. cbn [take firstn scan_cstr].
  destruct (Byte.eqb c x00) eqn:E.
  - split; [reflexivity | cbn; lia].
  - destruct i as [|i].
    + cbn in Hnul. injection Hnul as ->. discriminate.
    + destruct (IH n i ltac:(lia) Hnul) as [Heq Hle].
      unfold bounded_cstr in Heq. rewrite Heq in Hle |- *.
      destruct (scan_cstr (take n rest)); cbn [cscan_cons];
        (split; [reflexivity | cbn [cscan_examined length] in *; lia]).
Qed.

(** With no NUL inside the bound, the scan goes on past it. *)
Lemma scan_cstr_overread : forall n mem,
  (n < length mem)%nat ->
  Forall (fun c => c <> x00) (take n mem) ->
  Z.of_nat n < cscan_examined (scan_cstr mem).
Proof.
  induction n as [|n IH]; intros mem Hlen Hnz;
    (destruct mem as [|c rest]; [cbn in Hlen; lia|]); cbn [scan_cstr].
  - pose proof (cscan_examined_nonneg rest).
    destruct (Byte.eqb c x00); [cbn; lia|]. rewrite cscan_examined_cons. lia.
  - cbn [take firstn] in Hnz. apply Forall_cons in Hnz as [Hc Hnz].
    destruct (Byte.eqb c x00) eqn:E.
    + apply Byte.byte_dec_bl in E. contradiction.
    + rewrite cscan_examined_cons.
      specialize (IH rest ltac:(cbn in Hlen; lia) Hnz). lia.
Qed.

End Scan.

(** ** The encoders agree with the loads *)

Section Encoding.

Lemma byte_val_of_Z z : byte_val (byte_of_Z z) = z mod 256.
Proof.
  pose proof (Z.mod_pos_bound z 256 ltac:(lia)) as Hm.
  unfold byte_of_Z, byte_val.
  destruct (Byte.of_N (Z.to_N (z mod 256))) as [b|] eqn:E.
  - apply Byte.to_of_N in E. cbn [default from_option id]. rewrite E. lia.
  - apply Byte.of_N_None_iff in E. lia.
Qed.

Lemma le_combine_split n z :
  le_combine (le_split n z) = z mod 256 ^ Z.of_nat n.
Proof.
  revert z. induction n as [|n IH]; intros z; cbn [le_split le_combine].
  - change (256 ^ Z.of_nat 0) with 1. now rewrite Z.mod_1_r.
  - rewrite IH, byte_val_of_Z, Nat2Z.inj_succ, Z.pow_succ_r by lia.
    assert (0 < 256 ^ Z.of_nat n) by (apply Z.pow_pos_nonneg; lia).
    rewrite Z.rem_mul_r by lia. reflexivity.
Qed.

(** [set_header_size] stores its value in the [header_size] member. *)
Lemma header_size_set img v :
  VENDOR_HEADER_SIZE <= Z.of_nat (length img) ->
  Hdr.header_size (header_of (set_header_size img v)) = u32 v.
Proof.
  intros Hlen.
  unfold Hdr.header_size, load_u32, header_of, set_header_size,
    VENDOR_HEADER_SIZE, Hdr.OFF_HEADER_SIZE in *.
  rewrite take_app_ge by (rewrite length_take; lia).
  rewrite drop_app_length' by (rewrite length_take; lia).
  rewrite take_app_ge by (rewrite length_le_split, length_take; lia).
  rewrite take_app_length' by (rewrite length_le_split; lia).
  apply (le_combine_split 4 v).
Qed.

End Encoding.

(** ** Concrete runs *)

Example align_4096 : ALIGN 2112 4096 = Some 4096.
Proof. reflexivity. Qed.

Example align_exact : ALIGN 8192 4096 = Some 8192.
Proof. reflexivity. Qed.

Example align_page_1 : ALIGN 2112 1 = Some 2112.
Proof. reflexivity. Qed.

Example align_last_fit : ALIGN 4294963200 4096 = Some 4294963200.
Proof. reflexivity. Qed.

Example align_first_wrap : ALIGN 4294963201 4096 = Some 0.
Proof. reflexivity. Qed.

Example sample_reads :
  freads (r_log (run ["unpack_vendor_boot"; "vendor_boot.img"]%string
                     (world_with "vendor_boot.img" sample_image)))
  = [("vendor_boot.img"%string, 0, 2112); ("vendor_boot.img"%string, 4096, 10);
     ("vendor_boot.img"%string, 8192, 5)].
Proof. vm_compute. reflexivity. Qed.

Example sample_report :
  In (Report "cmdline" (Terminated (list_byte_of_string "console=ttyS0")))
     (r_log (run ["unpack_vendor_boot"; "vendor_boot.img"]%string
                 (world_with "vendor_boot.img" sample_image))).
Proof. vm_compute. do 14 right. left. reflexivity. Qed.

(** Read from the ramdisk artifact's own path, the image is overwritten
    before its dtb is read. *)
Example sample_aliased :
  r_outcome (run ["unpack_vendor_boot"; "vendor_ramdisk.img"]%string
                 (world_with "vendor_ramdisk.img" sample_image))
  = Exit EXIT_FAILURE.
Proof. vm_compute. reflexivity. Qed.

(** ** Every exit of [main] *)

Section Exits.

Lemma run_classified argv w : ends argv w (run argv w).
Proof.
  destruct (decide (length argv = 2%nat)) as [Hargc | Hargc].
  2: { rewrite (run_usage argv w Hargc). constructor. exact Hargc. }
  destruct argv as [|app [|path [|? ?]]]; try discriminate Hargc. clear Hargc.
  destruct (files w !! path) as [img|] eqn:Hfile.
  2: { rewrite (run_no_file app path w Hfile). constructor. exact Hfile. }
  destruct (Z.lt_ge_cases (Z.of_nat (length img)) VENDOR_HEADER_SIZE) as [Hs|Hlen].
  { rewrite (run_short_header app path w img Hfile Hs). econstructor; eassumption. }
  destruct (decide (magic_ok img)) as [Hmagic|Hm].
  2: { rewrite (run_bad_magic app path w img Hfile Hlen Hm). constructor; assumption. }
  assert (Hacc : header_accepted w path img) by (repeat split; assumption).
  destruct (Z.eq_dec (Hdr.page_size (header_of img)) 0) as [Hz|Hnz].
  { rewrite (run_zero_page app path w img Hfile Hlen Hmagic Hz).
    econstructor; eassumption. }
  destruct (ALIGN_some VENDOR_HEADER_SIZE _ Hnz) as (a & Ha & _).
  destruct (ALIGN_some (Hdr.vendor_ramdisk_size (header_of img)) _ Hnz) as (b & Hb & _).
  pose proof (load_u32_range (header_of img) Hdr.OFF_VENDOR_RAMDISK_SIZE) as Hrange_rd.
  pose proof (load_u32_range (header_of img) Hdr.OFF_DTB_SIZE) as Hrange_dtb.
  fold (Hdr.vendor_ramdisk_size (header_of img)) in Hrange_rd.
  fold (Hdr.dtb_size (header_of img)) in Hrange_dtb.
  assert (Hcase : (Hdr.vendor_ramdisk_size (header_of img) = 0
                   \/ Z.of_nat (length img)
                      < a + Hdr.vendor_ramdisk_size (header_of img))
                  \/ (0 < Hdr.vendor_ramdisk_size (header_of img)
                      /\ a + Hdr.vendor_ramdisk_size (header_of img)
                         <= Z.of_nat (length img))) by lia.
  destruct Hcase as [Hbad | Hrd].
  { rewrite (run_ramdisk_unread app path w img Hfile Hlen Hmagic a Ha Hbad).
    econstructor; eassumption. }
  destruct (decide (VENDOR_RAMDISK ∈ unwritable w)) as [Hden | Hwr].
  { rewrite (run_ramdisk_denied app path w img Hfile Hlen Hmagic a Ha Hrd Hden).
    econstructor; eassumption. }
  destruct (input_after_ramdisk path w img Hfile a) as [img1 Hfile1].
  assert (Hcase : (Hdr.dtb_size (header_of img) = 0
                   \/ Z.of_nat (length img1) < a + b + Hdr.dtb_size (header_of img))
                  \/ (0 < Hdr.dtb_size (header_of img)
                      /\ a + b + Hdr.dtb_size (header_of img)
                         <= Z.of_nat (length img1))) by lia.
  destruct Hcase as [Hbad | Hdtb].
  { rewrite (run_dtb_unread app path w img Hfile Hlen Hmagic a Ha Hrd Hwr b Hb
                            img1 Hfile1 Hbad).
    econstructor; eassumption. }
  destruct (decide (VENDOR_DTB ∈ unwritable w)) as [Hden | Hwd].
  { rewrite (run_dtb_denied app path w img Hfile Hlen Hmagic a Ha Hrd Hwr b Hb
                            img1 Hfile1 Hdtb Hden).
    econstructor; eassumption. }
  rewrite (run_success app path w img Hfile Hlen Hmagic a Ha Hrd Hwr b Hb
                       img1 Hfile1 Hdtb Hwd).
  econstructor; eassumption.
Qed.

(** The rules leave no choice: a result that a rule gives is the run's. *)
Lemma ends_run argv w r : ends argv w r -> run argv w = r.
Proof.
  intros H. destruct H;
    repeat match goal with
           | Hacc : header_accepted _ _ _ |- _ => destruct Hacc as (? & ? & ?)
           end.
  - eapply run_usage; eassumption.
  - eapply run_no_file; eassumption.
  - eapply run_short_header; eassumption.
  - eapply run_bad_magic; eassumption.
  - eapply run_zero_page; eassumption.
  - eapply run_ramdisk_unread; eassumption.
  - eapply run_ramdisk_denied; eassumption.
  - eapply run_dtb_unread; eassumption.
  - eapply run_dtb_denied; eassumption.
  - eapply run_success; eassumption.
Qed.

(** To show a property of a run, show it of what each rule gives. *)
Lemma run_elim argv w (P : result -> Prop) :
  (forall r, ends argv w r -> P r) -> P (run argv w).
Proof. intros H. apply H, run_classified. Qed.

End Exits.



(** X2: with one operand other than the ramdisk artifact's path, a run
    that reports no seek and no write failure returns the success status
    exactly when the operand names a file with a whole header and the
    magic, the page size is not zero, both declared sizes are nonzero and
    both segments lie wholly in that file at their offsets, and both
    artifacts can be opened for writing. *)
Theorem success_iff_extractable (app path : string) (w : world) :
  path <> VENDOR_RAMDISK ->
  Forall (fun e => reports_io_failure e = false) (r_log (run [app; path] w)) ->
  r_outcome (run [app; path] w) = Exit EXIT_SUCCESS <-> extractable w path.
Proof.
  intros Hpath _.
  assert (Hsame : forall c img1,
            files (with_file w VENDOR_RAMDISK c) !! path = Some img1 ->
            files w !! path = Some img1).
  { intros c img1 H. unfold with_file in H. cbn [files] in H.
    rewrite lookup_insert_ne in H by congruence. exact H. }
  split.
  - pattern (run [app; path] w). apply run_elim. intros r H.
    inversion H; subst; cbn [r_outcome]; intros Hout;
      try discriminate Hout.
    + cbn in *. congruence.
    + match goal with
      | Hacc : header_accepted _ _ ?i,
        H1 : files (with_file _ _ _) !! _ = Some ?i1 |- _ =>
          assert (i1 = i)
            by (destruct Hacc as (Hf & _); apply Hsame in H1; congruence);
          subst i1
      end.
      unfold extractable. do 3 eexists.
      repeat (split; [eassumption|]). eassumption.
  - intros (img & a & b & (Hfile & Hlen & Hmagic) & Ha & Hrd & Hwr & Hb
            & Hdtb & Hwd).
    assert (Hfile1 : files (with_file w VENDOR_RAMDISK
                              (segment img a (Hdr.vendor_ramdisk_size (header_of img))))
                     !! path = Some img)
      by (unfold with_file; cbn [files];
          rewrite lookup_insert_ne by congruence; exact Hfile).
    rewrite (run_success app path w img Hfile Hlen Hmagic a Ha Hrd Hwr b Hb
                         img Hfile1 Hdtb Hwd).
    reflexivity.
Qed.

Lemma success_iff_extractable_witness :
  let w := world_with "vendor_boot.img" sample_image in
  "vendor_boot.img"%string <> VENDOR_RAMDISK
  /\ (r_outcome (run ["unpack_vendor_boot"; "vendor_boot.img"]%string w)
      = Exit EXIT_SUCCESS
      <-> extractable w "vendor_boot.img").
Proof.
  cbv zeta.
  assert (H1 : "vendor_boot.img"%string <> VENDOR_RAMDISK) by discriminate.
  assert (H2 : Forall (fun e => reports_io_failure e = false)
                      (r_log (run ["unpack_vendor_boot"; "vendor_boot.img"]%string
                                  (world_with "vendor_boot.img" sample_image)))).
  { vm_compute. repeat constructor. }
  split; [exact H1|].
  exact (success_iff_extractable "unpack_vendor_boot" "vendor_boot.img" _ H1 H2).
Defined.

(** X3: no run creates, removes or changes a file other than the two
    artifacts, and no run changes what can be opened for writing; in
    particular an image read from another path is left as it was. *)
Theorem other_files_untouched (argv : list string) (w : world) (p : string) :
  p <> VENDOR_RAMDISK -> p <> VENDOR_DTB ->
  files (r_world (run argv w)) !! p = files w !! p
  /\ unwritable (r_world (run argv w)) = unwritable w.
Proof.
  intros Hr Hd. pattern (run argv w). apply run_elim. intros r H.
  destruct H; cbn [r_world with_file files unwritable];
    (split; [|reflexivity]);
    rewrite ?lookup_insert_ne by congruence; reflexivity.
Qed.

Lemma other_files_untouched_witness :
  let w := world_with "vendor_boot.img" sample_image in
  "vendor_boot.img"%string <> VENDOR_RAMDISK
  /\ "vendor_boot.img"%string <> VENDOR_DTB
  /\ files (r_world (run ["unpack_vendor_boot"; "vendor_boot.img"]%string w))
     !! "vendor_boot.img"%string
     = files w !! "vendor_boot.img"%string.
Proof.
  cbv zeta.
  assert (H1 : "vendor_boot.img"%string <> VENDOR_RAMDISK) by discriminate.
  assert (H2 : "vendor_boot.img"%string <> VENDOR_DTB) by discriminate.
  split; [exact H1|]. split; [exact H2|].
  pose proof (other_files_untouched ["unpack_vendor_boot"; "vendor_boot.img"]%string
                (world_with "vendor_boot.img" sample_image) "vendor_boot.img" H1 H2)
    as [H _].
  exact H.
Defined.



(** A log that closes the input twice and leaves an artifact open is told
    apart, as is the division fault, which leaves the input open. *)
Example open_streams_tells_leak :
  open_streams [Fopen "in" "r"; Fopen "out" "w"; Fclose "in"; Fclose "in"] [] = None.
Proof. reflexivity. Qed.

Example open_streams_after_fault :
  open_streams (r_log (run ["unpack_vendor_boot"; "vendor_boot.img"]%string
                           (world_with "vendor_boot.img" zero_page_image))) []
  = Some ["vendor_boot.img"%string].
Proof. vm_compute. reflexivity. Qed.

(** X5: the only run that does not return from [main] is the division by
    a page size of zero: a run faults exactly when its one operand names a
    file with a whole header and the magic whose page size member is 0; it
    then leaves the input stream open and the file system as it was. *)
Theorem fault_iff_zero_page_size (argv : list string) (w : world) :
  (r_outcome (run argv w) = Fault DivByZero
   <-> exists app path img,
         argv = [app; path]
         /\ header_accepted w path img
         /\ Hdr.page_size (header_of img) = 0)
  /\ (r_outcome (run argv w) = Fault DivByZero ->
      r_world (run argv w) = w /\ open_count (r_log (run argv w)) = 1).
Proof.
  split.
  - split.
    + pattern (run argv w). apply run_elim. intros r H.
      destruct H; cbn [r_outcome]; intros Hout; try discriminate Hout.
      eauto 6.
    + intros (app & path & img & -> & (Hfile & Hlen & Hmagic) & Hz).
      rewrite (run_zero_page app path w img Hfile Hlen Hmagic Hz). reflexivity.
  - pattern (run argv w). apply run_elim. intros r H.
    destruct H; cbn [r_outcome r_world r_log]; intros Hout;
      try discriminate Hout.
    split; reflexivity.
Qed.

(** ** More on the alignment macros *)

Section Align.

Lemma ALIGN_multiple_of s p a :
  0 < p -> ALIGN s p = Some a ->
  a mod p = 0 /\ 0 <= a <= u32 (s + p - 1).
Proof.
  intros Hp. unfold ALIGN, PAGES, u32_div.
  destruct (Z.eqb_spec p 0) as [|_]; [lia|].
  rewrite u32_sub_add. intros [= <-].
  pose proof (u32_range (s + p - 1)) as Ht.
  pose proof (Z.mul_div_le (u32 (s + p - 1)) p Hp) as Hle.
  assert (Hq : 0 <= u32 (s + p - 1) / p) by (apply Z.div_pos; lia).
  unfold u32_mul. rewrite u32_small by nia.
  split; [apply Z.mod_mul; lia | nia].
Qed.

Lemma page_align_mono s s' p :
  0 < p -> s <= s' -> page_align s p <= page_align s' p.
Proof.
  intros Hp Hs. unfold page_align. rewrite !ceil_div_eq by exact Hp.
  apply Z.mul_le_mono_nonneg_r; [lia|].
  apply Z.div_le_mono; lia.
Qed.

Lemma page_align_multiple k p : 0 < p -> page_align (k * p) p = k * p.
Proof.
  intros Hp. unfold page_align, ceil_div.
  rewrite Z.mod_mul, Z.div_mul by lia. cbn. lia.
Qed.

End Align.

(** X6: with a page size above zero the macro always yields a multiple of
    the page size that is an [unsigned int] and does not exceed the wrapped
    sum size + page_size - 1: also when the sum wraps, the offsets [main]
    derives from it are page aligned. *)
Theorem ALIGN_is_page_multiple (s p : Z) :
  0 < p ->
  exists a, ALIGN s p = Some a
            /\ a mod p = 0
            /\ 0 <= a <= u32 (s + p - 1)
            /\ a < UINT32_MOD.
Proof.
  intros Hp.
  destruct (ALIGN_some s p ltac:(lia)) as (a & Ha & Hr).
  destruct (ALIGN_multiple_of s p a Hp Ha) as [Hm Hb].
  exists a. repeat split; try assumption; lia.
Qed.

Lemma ALIGN_is_page_multiple_witness :
  0 < 4096
  /\ exists a, ALIGN 4294963201 4096 = Some a
               /\ a mod 4096 = 0
               /\ 0 <= a <= u32 (4294963201 + 4096 - 1)
               /\ a < UINT32_MOD.
Proof.
  assert (H : 0 < 4096) by lia.
  split; [exact H|]. exact (ALIGN_is_page_multiple 4294963201 4096 H).
Defined.

(** X7: where the 32-bit sums do not wrap, the macro leaves a size that
    is already a multiple of the page size as it is (no padding is
    skipped after a segment that ends on a page boundary), and it is
    monotone in the size. *)
Theorem ALIGN_fixes_multiples_and_is_monotone (k s s' p : Z) :
  0 < p -> 0 <= k -> k * p + p - 1 < UINT32_MOD ->
  0 <= s <= s' -> s' + p - 1 < UINT32_MOD ->
  ALIGN (k * p) p = Some (k * p)
  /\ exists a a', ALIGN s p = Some a /\ ALIGN s' p = Some a' /\ a <= a'.
Proof.
  intros Hp Hk Hfit Hs Hfit'.
  split.
  - rewrite ALIGN_page_align by nia. f_equal. apply page_align_multiple, Hp.
  - exists (page_align s p), (page_align s' p).
    rewrite !ALIGN_page_align by lia.
    repeat split. apply page_align_mono; lia.
Qed.

Lemma ALIGN_fixes_multiples_and_is_monotone_witness :
  ALIGN (2 * 4096) 4096 = Some (2 * 4096)
  /\ exists a a', ALIGN 10 4096 = Some a /\ ALIGN 5000 4096 = Some a' /\ a <= a'.
Proof.
  apply (ALIGN_fixes_multiples_and_is_monotone 2 10 5000 4096);
    unfold UINT32_MOD; lia.
Defined.

(** ** The seeks *)

(** X8: every offset [main] hands to [fseek] is a non-negative multiple
    of the header's page size and fits a [long]: the conversion of the
    [unsigned int] results to [long] and their sum in [long] never
    overflow, and every segment is looked for on a page boundary. A run
    that does not get past the header seeks nowhere. *)
Theorem seeks_are_page_aligned (app path : string) (w : world) (img : list byte) :
  files w !! path = Some img ->
  Forall (fun o => 0 <= o <= LONG_MAX /\ o mod Hdr.page_size (header_of img) = 0)
         (fseeks (r_log (run [app; path] w)))
  /\ (~ header_accepted w path img -> fseeks (r_log (run [app; path] w)) = []).
Proof.
  intros Hfile.
  assert (Hal : forall s a, ALIGN s (Hdr.page_size (header_of img)) = Some a ->
                  0 <= a < UINT32_MOD /\ a mod Hdr.page_size (header_of img) = 0).
  { intros s a Ha.
    pose proof (ALIGN_range _ _ _ Ha) as Hr.
    pose proof (ALIGN_nonzero _ _ _ Ha) as Hnz.
    pose proof (load_u32_range (header_of img) Hdr.OFF_PAGE_SIZE) as Hps.
    fold (Hdr.page_size (header_of img)) in Hps.
    assert (Hpos : 0 < Hdr.page_size (header_of img)) by lia.
    destruct (ALIGN_multiple_of s _ a Hpos Ha) as [Hm _].
    split; assumption. }
  pattern (run [app; path] w). apply run_elim. intros r H.
  inversion H; subst;
    repeat match goal with
           | Hacc : header_accepted _ _ _ |- _ => destruct Hacc as (Hf & ? & ?)
           | Hf : files w !! path = Some ?i |- _ =>
               lazymatch i with
               | img => fail
               | _ => rewrite Hfile in Hf; injection Hf as <-
               end
           end;
    cbn [r_log];
    (split;
     [ cbn;
       repeat match goal with
              | Ha : ALIGN _ _ = Some _ |- _ => apply Hal in Ha; destruct Ha
              end;
       repeat constructor; try solve [auto];
       try (unfold UINT32_MOD, LONG_MAX in *; lia);
       try (rewrite <- Zplus_mod_idemp_l, <- Zplus_mod_idemp_r;
            repeat match goal with Hm : _ mod _ = 0 |- _ => rewrite Hm end;
            reflexivity)
     | intros Hna; try reflexivity; exfalso; apply Hna; repeat split; assumption ]).
Qed.

Lemma seeks_are_page_aligned_witness :
  let w := world_with "vendor_boot.img" sample_image in
  files w !! "vendor_boot.img"%string = Some sample_image
  /\ Forall (fun o => 0 <= o <= LONG_MAX
                      /\ o mod Hdr.page_size (header_of sample_image) = 0)
            (fseeks (r_log (run ["unpack_vendor_boot"; "vendor_boot.img"]%string w))).
Proof.
  cbv zeta.
  assert (H : files (world_with "vendor_boot.img" sample_image)
              !! "vendor_boot.img"%string = Some sample_image)
    by apply lookup_singleton_eq.
  split; [exact H|].
  pose proof (seeks_are_page_aligned "unpack_vendor_boot" "vendor_boot.img"
                (world_with "vendor_boot.img" sample_image) sample_image H)
    as [Hall _].
  exact Hall.
Defined.

(** ** Inputs and artifacts that cannot be used *)

(** X9: an operand that names no file ends the run at once: the only
    operation is the attempt to open it, the open error is reported, the
    status is the failure status and the file system is left as it was. *)
Theorem missing_input_rejected (app path : string) (w : world) :
  files w !! path = None ->
  r_outcome (run [app; path] w) = Exit EXIT_FAILURE
  /\ r_log (run [app; path] w) = [Fopen path "r"; Diag (ErrOpen path)]
  /\ r_world (run [app; path] w) = w.
Proof.
  intros H. rewrite (run_no_file app path w H). repeat split.
Qed.

Lemma missing_input_rejected_witness :
  let w := world_with "vendor_boot.img" sample_image in
  files w !! "boot.img"%string = None
  /\ r_outcome (run ["unpack_vendor_boot"; "boot.img"]%string w) = Exit EXIT_FAILURE.
Proof.
  cbv zeta.
  assert (H : files (world_with "vendor_boot.img" sample_image) !! "boot.img"%string
              = None) by (apply lookup_singleton_ne; discriminate).
  split; [exact H|].
  pose proof (missing_input_rejected "unpack_vendor_boot" "boot.img"
                (world_with "vendor_boot.img" sample_image) H) as [Hout _].
  exact Hout.
Defined.

(** X10: a file shorter than the 2112-byte header is rejected whatever it
    holds, a correct magic included: the header read is the only transfer,
    it is reported as a read error at end of file, nothing is sought or
    written, the status is the failure status and the input stream is
    closed. *)
Theorem short_file_rejected (app path : string) (w : world) (img : list byte) :
  files w !! path = Some img ->
  Z.of_nat (length img) < VENDOR_HEADER_SIZE ->
  let r := run [app; path] w in
  r_outcome r = Exit EXIT_FAILURE
  /\ freads (r_log r) = [(path, 0, VENDOR_HEADER_SIZE)]
  /\ In (Diag (ErrRead true)) (r_log r)
  /\ fseeks (r_log r) = []
  /\ fwrites (r_log r) = []
  /\ last (r_log r) = Some (Fclose path)
  /\ r_world r = w.
Proof.
  intros Hfile Hs r. subst r.
  rewrite (run_short_header app path w img Hfile Hs). cbn.
  repeat split. do 3 right. left. reflexivity.
Qed.

Lemma short_file_rejected_witness :
  let img := list_byte_of_string VENDOR_BOOT_MAGIC in
  let w := world_with "vendor_boot.img" img in
  Z.of_nat (length img) < VENDOR_HEADER_SIZE
  /\ r_outcome (run ["unpack_vendor_boot"; "vendor_boot.img"]%string w)
     = Exit EXIT_FAILURE.
Proof.
  cbv zeta.
  assert (H1 : files (world_with "vendor_boot.img" (list_byte_of_string VENDOR_BOOT_MAGIC))
               !! "vendor_boot.img"%string
               = Some (list_byte_of_string VENDOR_BOOT_MAGIC))
    by apply lookup_singleton_eq.
  assert (H2 : Z.of_nat (length (list_byte_of_string VENDOR_BOOT_MAGIC))
               < VENDOR_HEADER_SIZE) by (vm_compute; reflexivity).
  split; [exact H2|].
  pose proof (short_file_rejected "unpack_vendor_boot" "vendor_boot.img" _ _ H1 H2)
    as H.
  cbv zeta in H. destruct H as [Hout _]. exact Hout.
Defined.

(** X11: an artifact that cannot be opened for writing ends the run with
    the failure status after its segment has been read. For the ramdisk
    artifact the file system is left as it was and the dtb is never read;
    for the dtb artifact the ramdisk artifact written before stays in
    place, whole: a failed run is not cleaned up after. *)
Theorem unwritable_artifact_fails (app path : string) (w : world) (img : list byte)
        (a : Z) :
  header_accepted w path img ->
  ALIGN VENDOR_HEADER_SIZE (Hdr.page_size (header_of img)) = Some a ->
  0 < Hdr.vendor_ramdisk_size (header_of img)
  /\ a + Hdr.vendor_ramdisk_size (header_of img) <= Z.of_nat (length img) ->
  let rd := Hdr.vendor_ramdisk_size (header_of img) in
  let dtb := Hdr.dtb_size (header_of img) in
  let r := run [app; path] w in
  (VENDOR_RAMDISK ∈ unwritable w ->
   r_outcome r = Exit EXIT_FAILURE
   /\ In (Diag (ErrOpen VENDOR_RAMDISK)) (r_log r)
   /\ freads (r_log r) = [(path, 0, VENDOR_HEADER_SIZE); (path, a, rd)]
   /\ fwrites (r_log r) = []
   /\ r_world r = w)
  /\ (forall b img1,
        VENDOR_RAMDISK ∉ unwritable w ->
        ALIGN rd (Hdr.page_size (header_of img)) = Some b ->
        files (with_file w VENDOR_RAMDISK (segment img a rd)) !! path = Some img1 ->
        0 < dtb /\ a + b + dtb <= Z.of_nat (length img1) ->
        VENDOR_DTB ∈ unwritable w ->
        r_outcome r = Exit EXIT_FAILURE
        /\ In (Diag (ErrOpen VENDOR_DTB)) (r_log r)
        /\ fwrites (r_log r) = [(VENDOR_RAMDISK, rd)]
        /\ files (r_world r) !! VENDOR_RAMDISK = Some (segment img a rd)
        /\ Z.of_nat (length (segment img a rd)) = rd
        /\ files (r_world r) !! VENDOR_DTB = files w !! VENDOR_DTB).
Proof.
  intros (Hfile & Hlen & Hmagic) Ha Hrd rd dtb r. subst r. split.
  - intros Hden.
    rewrite (run_ramdisk_denied app path w img Hfile Hlen Hmagic a Ha Hrd Hden).
    cbn. repeat split. do 7 right. left. reflexivity.
  - intros b img1 Hwr Hb Hfile1 Hdtb Hden.
    rewrite (run_dtb_denied app path w img Hfile Hlen Hmagic a Ha Hrd Hwr b Hb
                            img1 Hfile1 Hdtb Hden).
    cbn. repeat split.
    + do 13 right. left. reflexivity.
    + apply lookup_insert_eq.
    + exact (length_ramdisk img a Ha Hrd).
    + apply lookup_insert_ne. discriminate.
Qed.

Lemma unwritable_artifact_fails_witness :
  let w := World {[ "vendor_boot.img"%string := sample_image ]} {[ VENDOR_RAMDISK ]} in
  header_accepted w "vendor_boot.img" sample_image
  /\ VENDOR_RAMDISK ∈ unwritable w
  /\ r_outcome (run ["unpack_vendor_boot"; "vendor_boot.img"]%string w)
     = Exit EXIT_FAILURE
  /\ r_world (run ["unpack_vendor_boot"; "vendor_boot.img"]%string w) = w.
Proof.
  cbv zeta.
  set (w := World {[ "vendor_boot.img"%string := sample_image ]} {[ VENDOR_RAMDISK ]}).
  assert (H1 : header_accepted w "vendor_boot.img" sample_image).
  { split; [apply lookup_singleton_eq|].
    split; [vm_compute; discriminate | vm_compute; reflexivity]. }
  assert (H2 : ALIGN VENDOR_HEADER_SIZE (Hdr.page_size (header_of sample_image))
               = Some 4096) by (vm_compute; reflexivity).
  assert (H3 : 0 < Hdr.vendor_ramdisk_size (header_of sample_image)
               /\ 4096 + Hdr.vendor_ramdisk_size (header_of sample_image)
                  <= Z.of_nat (length sample_image))
    by (split; vm_compute; [reflexivity | discriminate]).
  assert (H4 : VENDOR_RAMDISK ∈ unwritable w)
    by (unfold w; cbn [unwritable]; apply elem_of_singleton_2; reflexivity).
  split; [exact H1|]. split; [exact H4|].
  pose proof (unwritable_artifact_fails "unpack_vendor_boot" "vendor_boot.img"
                w sample_image 4096 H1 H2 H3) as H.
  cbv zeta in H. destruct H as [H _].
  destruct (H H4) as (Hout & _ & _ & _ & Hw). split; [exact Hout | exact Hw].
Defined.

(** ** [file_read] on its own *)



(** ** The reported strings *)

(** X13: the command line and the product name are reported by successful
    runs only, in that order, and such a run has written both artifacts;
    every other run reports neither. What is reported is the scan of the
    header memory from each member on. *)
Theorem reports_only_on_success (argv : list string) (w : world) :
  reports (r_log (run argv w)) = []
  \/ (r_outcome (run argv w) = Exit EXIT_SUCCESS
      /\ exists app path img,
           argv = [app; path]
           /\ header_accepted w path img
           /\ fwrites (r_log (run argv w))
              = [(VENDOR_RAMDISK, Hdr.vendor_ramdisk_size (header_of img));
                 (VENDOR_DTB, Hdr.dtb_size (header_of img))]
           /\ reports (r_log (run argv w))
              = [("cmdline"%string, scan_cstr (Hdr.cmdline (header_of img)));
                 ("product name"%string, scan_cstr (Hdr.name (header_of img)))]).
Proof.
  pattern (run argv w). apply run_elim. intros r H.
  destruct H; cbn [r_outcome r_log]; try (left; reflexivity).
  right. split; [reflexivity|].
  do 3 eexists. split; [reflexivity|]. split; [eassumption|].
  split; reflexivity.
Qed.

Section Reported.

Variables (app path : string) (w : world) (img : list byte).
Hypothesis Hfile : files w !! path = Some img.
Hypothesis Hok : r_outcome (run [app; path] w) = Exit EXIT_SUCCESS.

Lemma reports_of_success :
  VENDOR_HEADER_SIZE <= Z.of_nat (length img)
  /\ reports (r_log (run [app; path] w))
     = [("cmdline"%string, scan_cstr (Hdr.cmdline (header_of img)));
        ("product name"%string, scan_cstr (Hdr.name (header_of img)))].
Proof.
  revert Hok. pattern (run [app; path] w). apply run_elim.
  intros r H. inversion H; subst; cbn [r_outcome r_log]; intros Hout;
    try discriminate Hout.
  - cbn in *. congruence.
  - match goal with
    | Hacc : header_accepted _ _ _ |- _ => destruct Hacc as (Hf & Hl & _)
    end.
    rewrite Hfile in Hf. injection Hf as <-.
    split; [exact Hl | reflexivity].
Qed.

End Reported.

Section HeaderStrings.

Variable img : list byte.
Hypothesis Hlen : VENDOR_HEADER_SIZE <= Z.of_nat (length img).

Lemma length_hdr_cmdline :
  length (Hdr.cmdline (header_of img))
  = Z.to_nat (VENDOR_HEADER_SIZE - Hdr.OFF_CMDLINE).
Proof.
  unfold Hdr.cmdline. rewrite length_drop, length_header_of by exact Hlen.
  unfold VENDOR_HEADER_SIZE, Hdr.OFF_CMDLINE. lia.
Qed.

Lemma length_hdr_name :
  length (Hdr.name (header_of img))
  = Z.to_nat (VENDOR_HEADER_SIZE - Hdr.OFF_NAME).
Proof.
  unfold Hdr.name. rewrite length_drop, length_header_of by exact Hlen.
  unfold VENDOR_HEADER_SIZE, Hdr.OFF_NAME. lia.
Qed.

End HeaderStrings.

(** X14: when a successful run's header holds a NUL within the 2048 bytes
    of [cmdline] and within the 16 bytes of [name], the two reported
    strings are exactly the bytes before the first NUL of each array, and
    the scans stay within the arrays. *)
Theorem terminated_strings_reported (app path : string) (w : world) (img : list byte)
        (i j : nat) :
  files w !! path = Some img ->
  r_outcome (run [app; path] w) = Exit EXIT_SUCCESS ->
  (i < Z.to_nat VENDOR_BOOT_ARGS_SIZE)%nat ->
  Hdr.cmdline (header_of img) !! i = Some x00 ->
  (j < Z.to_nat VENDOR_BOOT_NAME_SIZE)%nat ->
  Hdr.name (header_of img) !! j = Some x00 ->
  let cmdline := bounded_cstr (Hdr.cmdline (header_of img))
                              (Z.to_nat VENDOR_BOOT_ARGS_SIZE) in
  let name := bounded_cstr (Hdr.name (header_of img))
                           (Z.to_nat VENDOR_BOOT_NAME_SIZE) in
  reports (r_log (run [app; path] w))
  = [("cmdline"%string, Terminated cmdline); ("product name"%string, Terminated name)]
  /\ Z.of_nat (length cmdline) < VENDOR_BOOT_ARGS_SIZE
  /\ Z.of_nat (length name) < VENDOR_BOOT_NAME_SIZE.
Proof.
  intros Hfile Hok Hi Hci Hj Hnj cmdline name.
  destruct (reports_of_success app path w img Hfile Hok) as [_ Hrep].
  destruct (scan_cstr_terminated _ _ _ Hi Hci) as [Hc Hcb].
  destruct (scan_cstr_terminated _ _ _ Hj Hnj) as [Hn Hnb].
  rewrite Hrep. rewrite Hc in Hcb |- *. rewrite Hn in Hnb |- *.
  cbn [cscan_examined] in Hcb, Hnb. fold cmdline in Hcb. fold name in Hnb.
  split; [reflexivity|].
  unfold VENDOR_BOOT_ARGS_SIZE, VENDOR_BOOT_NAME_SIZE in *. lia.
Qed.

Lemma terminated_strings_reported_witness :
  let w := world_with "vendor_boot.img" sample_image in
  r_outcome (run ["unpack_vendor_boot"; "vendor_boot.img"]%string w) = Exit EXIT_SUCCESS
  /\ Hdr.cmdline (header_of sample_image) !! 13%nat = Some x00
  /\ Hdr.name (header_of sample_image) !! 5%nat = Some x00
  /\ reports (r_log (run ["unpack_vendor_boot"; "vendor_boot.img"]%string w))
     = [("cmdline"%string,
         Terminated (bounded_cstr (Hdr.cmdline (header_of sample_image))
                                  (Z.to_nat VENDOR_BOOT_ARGS_SIZE)));
        ("product name"%string,
         Terminated (bounded_cstr (Hdr.name (header_of sample_image))
                                  (Z.to_nat VENDOR_BOOT_NAME_SIZE)))].
Proof.
  cbv zeta.
  assert (H1 : files (world_with "vendor_boot.img" sample_image)
               !! "vendor_boot.img"%string = Some sample_image)
    by apply lookup_singleton_eq.
  assert (H2 : r_outcome (run ["unpack_vendor_boot"; "vendor_boot.img"]%string
                              (world_with "vendor_boot.img" sample_image))
               = Exit EXIT_SUCCESS) by (vm_compute; reflexivity).
  assert (H3 : (13 < Z.to_nat VENDOR_BOOT_ARGS_SIZE)%nat)
    by (unfold VENDOR_BOOT_ARGS_SIZE; lia).
  assert (H4 : Hdr.cmdline (header_of sample_image) !! 13%nat = Some x00)
    by (vm_compute; reflexivity).
  assert (H5 : (5 < Z.to_nat VENDOR_BOOT_NAME_SIZE)%nat)
    by (unfold VENDOR_BOOT_NAME_SIZE; lia).
  assert (H6 : Hdr.name (header_of sample_image) !! 5%nat = Some x00)
    by (vm_compute; reflexivity).
  split; [exact H2|]. split; [exact H4|]. split; [exact H6|].
  pose proof (terminated_strings_reported "unpack_vendor_boot" "vendor_boot.img"
                _ sample_image 13 5 H1 H2 H3 H4 H5 H6) as H.
  cbv zeta in H. destruct H as [H _]. exact H.
Defined.

(** X15: when a successful run's header holds no NUL in the 2048 bytes of
    [cmdline], the scan for the command line examines more than 2048
    bytes, and when it holds none in the 16 bytes of [name], the scan for
    the product name examines more than 16: the members that follow in the
    struct are read as part of the string. *)
Theorem unterminated_strings_run_on (app path : string) (w : world) (img : list byte) :
  files w !! path = Some img ->
  r_outcome (run [app; path] w) = Exit EXIT_SUCCESS ->
  (Forall (fun c => c <> x00)
          (take (Z.to_nat VENDOR_BOOT_ARGS_SIZE) (Hdr.cmdline (header_of img))) ->
   exists s, reports (r_log (run [app; path] w)) !! 0%nat = Some ("cmdline"%string, s)
             /\ VENDOR_BOOT_ARGS_SIZE < cscan_examined s)
  /\ (Forall (fun c => c <> x00)
             (take (Z.to_nat VENDOR_BOOT_NAME_SIZE) (Hdr.name (header_of img))) ->
      exists s, reports (r_log (run [app; path] w)) !! 1%nat
                = Some ("product name"%string, s)
                /\ VENDOR_BOOT_NAME_SIZE < cscan_examined s).
Proof.
  intros Hfile Hok.
  destruct (reports_of_success app path w img Hfile Hok) as [Hlen Hrep].
  rewrite Hrep. split; intros Hnz; eexists; (split; [reflexivity|]).
  - pose proof (scan_cstr_overread (Z.to_nat VENDOR_BOOT_ARGS_SIZE)
                  (Hdr.cmdline (header_of img))) as H.
    rewrite length_hdr_cmdline in H by exact Hlen.
    specialize (H ltac:(unfold VENDOR_HEADER_SIZE, Hdr.OFF_CMDLINE,
                          VENDOR_BOOT_ARGS_SIZE; lia) Hnz).
    unfold VENDOR_BOOT_ARGS_SIZE in *. lia.
  - pose proof (scan_cstr_overread (Z.to_nat VENDOR_BOOT_NAME_SIZE)
                  (Hdr.name (header_of img))) as H.
    rewrite length_hdr_name in H by exact Hlen.
    specialize (H ltac:(unfold VENDOR_HEADER_SIZE, Hdr.OFF_NAME,
                          VENDOR_BOOT_NAME_SIZE; lia) Hnz).
    unfold VENDOR_BOOT_NAME_SIZE in *. lia.
Qed.

Lemma unterminated_strings_run_on_witness :
  let w := world_with "vendor_boot.img" unterminated_image in
  r_outcome (run ["unpack_vendor_boot"; "vendor_boot.img"]%string w) = Exit EXIT_SUCCESS
  /\ Forall (fun c => c <> x00)
            (take (Z.to_nat VENDOR_BOOT_NAME_SIZE)
                  (Hdr.name (header_of unterminated_image)))
  /\ exists s, reports (r_log (run ["unpack_vendor_boot"; "vendor_boot.img"]%string w))
               !! 1%nat = Some ("product name"%string, s)
               /\ VENDOR_BOOT_NAME_SIZE < cscan_examined s.
Proof.
  cbv zeta.
  assert (H1 : files (world_with "vendor_boot.img" unterminated_image)
               !! "vendor_boot.img"%string = Some unterminated_image)
    by apply lookup_singleton_eq.
  assert (H2 : r_outcome (run ["unpack_vendor_boot"; "vendor_boot.img"]%string
                              (world_with "vendor_boot.img" unterminated_image))
               = Exit EXIT_SUCCESS) by (vm_compute; reflexivity).
  assert (H3 : Forall (fun c => c <> x00)
                      (take (Z.to_nat VENDOR_BOOT_NAME_SIZE)
                            (Hdr.name (header_of unterminated_image)))).
  { replace (take (Z.to_nat VENDOR_BOOT_NAME_SIZE)
                  (Hdr.name (header_of unterminated_image)))
      with (repeat "B"%byte 16) by (vm_compute; reflexivity).
    cbn. repeat constructor; discriminate. }
  split; [exact H2|]. split; [exact H3|].
  pose proof (unterminated_strings_run_on "unpack_vendor_boot" "vendor_boot.img"
                _ unterminated_image H1 H2) as [_ H].
  exact (H H3).
Defined.

(** ** Running again *)

Section Again.

Lemma with_file_again w p c : with_file (with_file w p c) p c = with_file w p c.
Proof. unfold with_file. cbn [files unwritable]. now rewrite insert_insert_eq. Qed.

Lemma with_files_again w p q c d :
  with_file (with_file (with_file (with_file w p c) q d) p c) q d
  = with_file (with_file w p c) q d.
Proof.
  unfold with_file. cbn [files unwritable]. f_equal.
  apply map_eq. intros k.
  destruct (decide (q = k)) as [->|Hq]; [now rewrite !lookup_insert_eq|].
  rewrite !(lookup_insert_ne _ q k) by exact Hq.
  destruct (decide (p = k)) as [->|Hp]; [now rewrite !lookup_insert_eq|].
  repeat (rewrite lookup_insert_ne by assumption). reflexivity.
Qed.

Variables (app path : string) (w : world).
Hypothesis Hnr : path <> VENDOR_RAMDISK.
Hypothesis Hnd : path <> VENDOR_DTB.

Lemma ends_again r : ends [app; path] w r -> run [app; path] (r_world r) = r.
Proof.
  intros H.
  inversion H; subst; pose proof (ends_run _ _ _ H) as Hrun;
    repeat match goal with
           | Hacc : header_accepted _ _ _ |- _ => destruct Hacc as (? & ? & ?)
           end;
    cbn [r_world]; try exact Hrun; clear Hrun.
  all: try match goal with
           | H1 : files (with_file w VENDOR_RAMDISK _) !! path = Some ?i1,
             H0 : files w !! path = Some ?i |- _ =>
               assert (i1 = i)
                 by (unfold with_file in H1; cbn [files] in H1;
                     rewrite lookup_insert_ne in H1 by congruence; congruence);
               subst i1
           end.
  - (* the dtb was not read *)
    erewrite run_dtb_unread; try eassumption.
    + now rewrite with_file_again.
    + unfold with_file; cbn [files].
      rewrite !lookup_insert_ne by congruence. assumption.
  - (* the dtb artifact was not opened *)
    erewrite run_dtb_denied; try eassumption.
    + now rewrite with_file_again.
    + unfold with_file; cbn [files].
      rewrite !lookup_insert_ne by congruence. assumption.
  - (* success *)
    erewrite run_success; try eassumption.
    + now rewrite with_files_again.
    + unfold with_file; cbn [files].
      rewrite !lookup_insert_ne by congruence. assumption.
    + unfold with_file; cbn [files].
      rewrite !lookup_insert_ne by congruence. assumption.
Qed.

Lemma run_again : run [app; path] (r_world (run [app; path] w)) = run [app; path] w.
Proof. apply ends_again, run_classified. Qed.

End Again.

(** X16: run a second time on the file system the first run left, with an
    operand other than the two artifact names, the extractor ends the same
    way, does the same operations and leaves the file system as the first
    run left it. *)
Theorem second_run_is_the_same (app path : string) (w : world) :
  path <> VENDOR_RAMDISK -> path <> VENDOR_DTB ->
  let r := run [app; path] w in
  run [app; path] (r_world r) = r.
Proof.
  intros Hnr Hnd r. subst r. apply run_again; assumption.
Qed.

Lemma second_run_is_the_same_witness :
  let r := run ["unpack_vendor_boot"; "vendor_boot.img"]%string
               (world_with "vendor_boot.img" sample_image) in
  "vendor_boot.img"%string <> VENDOR_RAMDISK
  /\ "vendor_boot.img"%string <> VENDOR_DTB
  /\ run ["unpack_vendor_boot"; "vendor_boot.img"]%string (r_world r) = r.
Proof.
  cbv zeta.
  assert (H1 : "vendor_boot.img"%string <> VENDOR_RAMDISK) by discriminate.
  assert (H2 : "vendor_boot.img"%string <> VENDOR_DTB) by discriminate.
  split; [exact H1|]. split; [exact H2|].
  exact (second_run_is_the_same "unpack_vendor_boot" "vendor_boot.img"
           (world_with "vendor_boot.img" sample_image) H1 H2).
Defined.

(** ** [file_write] and the writes of [main] *)

Section Overwrite.

Variables (old data : list byte) (pos : nat).





End Overwrite.



Example file_write_in_place :
  fst (file_write (list_byte_of_string "XY") 2 (File "out" 3 false)
         (State (world_with "out" (list_byte_of_string "abcdef")) []))
  = inl (0, File "out" 5 false)
  /\ files (st_world (snd (file_write (list_byte_of_string "XY") 2 (File "out" 3 false)
              (State (world_with "out" (list_byte_of_string "abcdef")) []))))
     !! "out"%string = Some (list_byte_of_string "abcXYf").
Proof. split; vm_compute; reflexivity. Qed.

Example file_write_past_end :
  files (st_world (snd (file_write (list_byte_of_string "XY") 2 (File "out" 4 false)
           (State (world_with "out" (list_byte_of_string "ab")) []))))
  !! "out"%string
  = Some (list_byte_of_string "ab" ++ [x00; x00] ++ list_byte_of_string "XY").
Proof. vm_compute. reflexivity. Qed.

(** X18: whatever the arguments and the file system, [main] writes at
    most twice: first the ramdisk artifact, then the dtb artifact, each
    with the nonzero size its header member declares; it never calls
    [file_write] with size zero and never writes to another path. *)
Theorem writes_are_the_two_artifacts (argv : list string) (w : world) :
  fwrites (r_log (run argv w)) = []
  \/ exists app path img,
       argv = [app; path]
       /\ header_accepted w path img
       /\ 0 < Hdr.vendor_ramdisk_size (header_of img) < UINT32_MOD
       /\ (fwrites (r_log (run argv w))
           = [(VENDOR_RAMDISK, Hdr.vendor_ramdisk_size (header_of img))]
           \/ (0 < Hdr.dtb_size (header_of img) < UINT32_MOD
               /\ fwrites (r_log (run argv w))
                  = [(VENDOR_RAMDISK, Hdr.vendor_ramdisk_size (header_of img));
                     (VENDOR_DTB, Hdr.dtb_size (header_of img))])).
Proof.
  pattern (run argv w). apply run_elim. intros r H.
  destruct H; cbn [r_log]; try (left; reflexivity);
    right; do 3 eexists; (split; [reflexivity|]); (split; [eassumption|]);
    pose proof (load_u32_range (header_of img) Hdr.OFF_VENDOR_RAMDISK_SIZE) as Hr;
    pose proof (load_u32_range (header_of img) Hdr.OFF_DTB_SIZE) as Hd;
    fold (Hdr.vendor_ramdisk_size (header_of img)) in Hr;
    fold (Hdr.dtb_size (header_of img)) in Hd;
    (split; [lia|]).
  - left. reflexivity.
  - left. reflexivity.
  - right. split; [lia | reflexivity].
Qed.
